(** * youtube-trending-bot: the YoutubeMarkov brain

    A shallow embedding of the two variants of the [YoutubeMarkov] class
    (the legacy single-file layout and the split three-file layout) and
    of the Node.js primitives they call, followed by the properties of
    the harvest cycle, of start-up recovery and of the derived metrics. *)

From Stdlib Require Import ZArith String Ascii List Lia.
From Stdlib Require QArith.
From stdpp Require Import base gmap strings list fin_maps.

#[local] Set Warnings "-clear-no-such-hyp".

Local Open Scope string_scope.
Local Open Scope Z_scope.

(** ** Node.js: paths, the file system, rejections *)

Module Node.

(** A path is the list of its components below the working directory;
    the working directory itself is [[]] and always exists. *)
Definition path := list string.

(** [path.dirname]: the path without its last component; the dirname of
    a bare file name is the working directory. *)
Definition dirname (p : path) : path := removelast p.

Inductive error :=
| ENOENT          (* a component of the path does not exist *)
| EEXIST          (* mkdir of something that exists *)
| EISDIR          (* file operation on a directory *)
| SyntaxError     (* JSON.parse on text that is not JSON *)
| TypeError       (* a value that is not what the operation needs *)
| RequestError.   (* a rejected promise of a YouTube collaborator *)

(** The result of a call: a value, or an exception / a rejected promise. *)
Inductive outcome (A : Type) :=
| Returned (a : A)
| Thrown (e : error).
Arguments Returned {A} a.
Arguments Thrown {A} e.

Definition returned {A} (o : outcome A) : bool :=
  match o with Returned _ => true | Thrown _ => false end.

Record filesystem := {
  dirs : gset path;
  files : gmap path string
}.

Definition isDirectory (d : filesystem) (p : path) : bool :=
  bool_decide (p = [] ∨ p ∈ dirs d).

Definition isFile (d : filesystem) (p : path) : bool :=
  negb (isDirectory d p) && bool_decide (is_Some (files d !! p)).

(** [fs.existsSync] *)
Definition existsSync (d : filesystem) (p : path) : bool :=
  isDirectory d p || isFile d p.

(** [fs.mkdirSync] without the recursive option: the parent has to be a
    directory already and the path itself must be free. *)
Definition mkdirSync (d : filesystem) (p : path) : outcome filesystem :=
  if existsSync d p then Thrown EEXIST
  else if isDirectory d (dirname p)
       then Returned {| dirs := {[p]} ∪ dirs d; files := files d |}
       else Thrown ENOENT.

(** [fs.readFile] with the utf8 encoding *)
Definition readFile (d : filesystem) (p : path) : outcome string :=
  if isDirectory d p then Thrown EISDIR
  else match files d !! p with
       | Some text => Returned text
       | None => Thrown ENOENT
       end.

(** [fs.writeFile]: creates or replaces the file; never creates a
    directory. *)
Definition writeFile (d : filesystem) (p : path) (data : string)
  : outcome filesystem :=
  if isDirectory d p then Thrown EISDIR
  else if isDirectory d (dirname p)
       then Returned {| dirs := dirs d; files := <[p := data]> (files d) |}
       else Thrown ENOENT.

(** [fs.appendFile]: like [writeFile], after the present contents. *)
Definition appendFile (d : filesystem) (p : path) (data : string)
  : outcome filesystem :=
  if isDirectory d p then Thrown EISDIR
  else if isDirectory d (dirname p)
       then Returned {| dirs := dirs d;
                        files := <[p := default "" (files d !! p) +:+ data]>
                                   (files d) |}
       else Thrown ENOENT.

(** A path that a write reaches without creating anything: its
    directory is there and the path is not itself a directory. *)
Definition writable (d : filesystem) (p : path) : bool :=
  isDirectory d (dirname p) && negb (isDirectory d p).

(** The disk after [data] has become the contents of [p] *)
Definition written (d : filesystem) (p : path) (data : string) : filesystem :=
  {| dirs := dirs d; files := <[p := data]> (files d) |}.

(** What is read from a file and parsed, or nothing when the file
    cannot be read or parsed *)
Definition stored {T} (parse : string -> option T) (d : filesystem) (p : path)
  : option T :=
  match readFile d p with
  | Returned json => parse json
  | Thrown _ => None
  end.

(** [fs.statSync(p).size]: the number of bytes of a file; for a
    directory the platform decides, which [directorySize] stands for. *)
Definition statSync_size (directorySize : path -> Z) (d : filesystem)
  (p : path) : outcome Z :=
  if isDirectory d p then Returned (directorySize p)
  else match files d !! p with
       | Some text => Returned (Z.of_nat (String.length text))
       | None => Thrown ENOENT
       end.

(** JavaScript numbers as far as the ratio metric needs them: a quotient
    of two integers is an exact rational here (the rounding of the
    double is not modelled), and division by zero gives [NaN] or
    [Infinity] as in IEEE 754. *)
Inductive number :=
| Num (q : QArith_base.Q)
| Infinity
| NaN.

(** [a / b] for integral [a >= 0] and [b >= 0] *)
Definition divide (a b : Z) : number :=
  match b with
  | Zpos d => Num (QArith_base.Qmake a d)
  | _ => if a =? 0 then NaN else Infinity
  end.

(** [Array.prototype.join] *)
Definition join (sep : string) (a : list string) : string :=
  String.concat sep a.

(** [Array.prototype.slice(0, n)] *)
Definition slice0 {A} (n : Z) (a : list A) : list A := take (Z.to_nat n) a.

Definition newline : string := String (ascii_of_nat 10) EmptyString.

End Node.
Import Node.

(** ** Asynchronous methods over a mutable world

    An [async] method is a function of the world (the object, the disk,
    the log of collaborator calls) that returns or rejects and leaves a
    world behind in both cases: what was mutated before a rejection
    stays mutated. Calls of [log] have no effect on the world and are
    left out.

    A write is applied to the disk of the world when it is issued. For
    a write that is awaited, this is the disk on which the method goes
    on. A call whose promise is dropped returns to its caller at once
    and its writes are carried out later: after such a call the disk of
    the world is the disk as it is once the writes in flight have been
    carried out, in the order in which they were issued, and not the
    disk of that moment. What is said below about the files after
    [saveDataToStorage], after a harvest cycle or after [initialise] is
    said of the writes these have issued; a new process finds them
    done. The order among the appends that one cycle leaves in flight
    at the same time is not fixed by the code, and nothing below
    depends on it. *)

Module Async.

Definition Async (W A : Type) : Type := W -> outcome A * W.

Definition ret {W A} (a : A) : Async W A := fun w => (Returned a, w).

Definition throw {W A} (e : error) : Async W A := fun w => (Thrown e, w).

Definition bind {W A B} (m : Async W A) (k : A -> Async W B) : Async W B :=
  fun w =>
    match m w with
    | (Returned a, w') => k a w'
    | (Thrown e, w') => (Thrown e, w')
    end.

(** [try { m } catch { handler }] *)
Definition try_catch {W A} (m handler : Async W A) : Async W A :=
  fun w =>
    match m w with
    | (Returned a, w') => (Returned a, w')
    | (Thrown _, w') => handler w'
    end.

(** A call of an async function whose promise is dropped (no [await]):
    its effects happen, its rejection is seen by nobody, and the caller
    does not wait for it. *)
Definition detached {W A} (m : Async W A) : Async W unit :=
  fun w => (Returned tt, snd (m w)).

Definition gets {W A} (f : W -> A) : Async W A := fun w => (Returned (f w), w).

Definition modify {W} (f : W -> W) : Async W unit :=
  fun w => (Returned tt, f w).

(** A result computed outside the world (a value or an exception) *)
Definition lift {W A} (o : outcome A) : Async W A := fun w => (o, w).

End Async.
Import Async.

Declare Scope async_scope.
Delimit Scope async_scope with async.
Notation "'let*' x := m 'in' k" := (bind m (fun x => k))
  (at level 10, x name, m at level 100, k at level 200) : async_scope.
Notation "m1 ;;; m2" := (bind m1 (fun _ => m2))
  (at level 100, m2 at level 200, right associativity) : async_scope.

(** ** The markov module and JSON *)

Module Markov.

(** The transition map: a JavaScript object from the serialised chain
    key to the array of successors seen after it, repetitions kept. *)
Abbreviation IMarkovMap := (gmap string (list string)).

(** What the class imports from the markov module and does not define
    itself: the two control tokens, the splitting of a text into
    messages of tokens, and the serialisation of a chain key. *)
Class Library := {
  START : string;
  END : string;
  splitInputIntoMessages : string -> list (list string);
  serialiseKey : list string -> string
}.

(** The successors recorded for a key; none for a key that is absent *)
Definition successors (m : IMarkovMap) (key : string) : list string :=
  default [] (m !! key).

Section Dictionary.
Context `{Library}.

(** Modelled from the spec: the tokenizer of the markov module wraps
    each message with K leading START tokens and one trailing END. *)
Definition wrapMessage (K : nat) (message : list string) : list string :=
  (repeat START K ++ message ++ [END])%list.

(** Modelled from the spec: the windows of width K of a token sequence,
    each with the token that follows it, from left to right. *)
Fixpoint windows (K : nat) (tokens : list string)
  : list (list string * string) :=
  match tokens with
  | [] => []
  | _ :: rest =>
      match drop K tokens with
      | successor :: _ => (take K tokens, successor) :: windows K rest
      | [] => []
      end
  end.

(** Modelled from the spec: one observation appended to the successors
    of its key. *)
Definition recordSuccessor (m : IMarkovMap) (w : list string * string)
  : IMarkovMap :=
  <[serialiseKey (fst w) :=
      (successors m (serialiseKey (fst w)) ++ [snd w])%list]> m.

(** Modelled from the spec: the windows of one wrapped message, recorded
    from left to right. *)
Definition recordMessage (K : nat) (m : IMarkovMap) (message : list string)
  : IMarkovMap :=
  foldl recordSuccessor m (windows K (wrapMessage K message)).

(** Modelled from the spec: [updateDictionaryFromInput] of the markov
    module, which is not among the sources: every window of every
    message of the text is recorded in the given map. *)
Definition updateDictionaryFromInput (text : string) (m : IMarkovMap)
  (K : nat) : IMarkovMap :=
  foldl (recordMessage K) m (splitInputIntoMessages text).

(** Modelled from the spec: [createDictionaryFromInput] of the markov
    module: the same extraction into a fresh map. *)
Definition createDictionaryFromInput (text : string) (K : nat) : IMarkovMap :=
  updateDictionaryFromInput text ∅ K.

End Dictionary.

(** A parsed document where the array of harvested IDs is expected, as
    [new Set] sees it: an array (or another iterable) with its
    elements, or a value that cannot be iterated, such as a number or
    an object. A missing member of a parsed object is [undefined], of
    which [new Set] makes the empty set: it counts as the empty
    array. *)
Inductive idsValue :=
| IdArray (ids : list string)
| NotIterable.

(** [new Set(value)] *)
Definition new_Set (value : idsValue) : outcome (gset string) :=
  match value with
  | IdArray ids => Returned (list_to_set ids)
  | NotIterable => Thrown TypeError
  end.

(** [JSON.stringify] and [JSON.parse] at the three types the class
    stores. [parse] gives [None] where [JSON.parse] throws or gives
    [null]. The source casts what is parsed to the type it expects and
    checks nothing. A document of another shape changes the course of
    start-up in two places, and both are kept: where [new Set] is given
    a value that is not iterable, and, in the single file of the legacy
    layout, where the [map] member is missing or [null] ([None] in the
    first component) when the log line counts its keys. Elsewhere the
    cast is trusted as TypeScript trusts it: a value that is assigned
    to the [map] field is taken to be a transition map, and the
    elements of an ID array to be strings. *)
Class Json := {
  stringify_ids : list string -> string;
  parse_ids : string -> option idsValue;
  stringify_map : IMarkovMap -> string;
  parse_map : string -> option IMarkovMap;
  stringify_structure : IMarkovMap * list string -> string;
  parse_structure : string -> option (option IMarkovMap * idsValue)
}.

End Markov.
Import Markov.

(** ** The youtube module: the two collaborators

    Both are outside the sources and answer from the network, so a
    harvest cycle takes them as its input: the trending list for an API
    key, and the comments of a video for a key and a maximum count.
    Either may reject. *)

Module Youtube.

Record Collaborators := {
  fetchTrendingVideos : string -> outcome (list string);
  fetchAllCommentsForVideo : string -> string -> Z -> outcome (list string)
}.

(** One entry of the log of comment fetches: the video asked for and
    what came back. *)
Record fetch := {
  videoId : string;
  response : outcome (list string)
}.

Definition commentsOf (f : fetch) : Z :=
  match response f with
  | Returned comments => Z.of_nat (length comments)
  | Thrown _ => 0
  end.

(** The number of comments obtained by a sequence of fetches *)
Definition commentsIn (log : list fetch) : Z :=
  foldr (fun f total => commentsOf f + total) 0 log.

(** The fetch collaborator keeps to the maximum count it is given
    (for one API key and one maximum). *)
Definition respectsLimit (yt : Collaborators) (key : string) (limit : Z)
  : Prop :=
  forall video comments,
    fetchAllCommentsForVideo yt video key limit = Returned comments ->
    Z.of_nat (length comments) <= limit.

(** The batch in the words of the specification: the identifiers that
    are already harvested are removed, the others keep their order, and
    the result is cut after the maximum batch size. *)
Fixpoint withoutHarvested (harvested : gset string) (videos : list string)
  : list string :=
  match videos with
  | [] => []
  | video :: rest =>
      if decide (video ∈ harvested) then withoutHarvested harvested rest
      else video :: withoutHarvested harvested rest
  end.

Fixpoint cutAfter {A} (n : nat) (l : list A) : list A :=
  match n, l with
  | S n, x :: l => x :: cutAfter n l
  | _, _ => []
  end.

Definition batchOfSpec (limit : Z) (harvested : gset string)
  (videos : list string) : list string :=
  cutAfter (Z.to_nat limit) (withoutHarvested harvested videos).

(** A log of fetches whose last fetch was rejected *)
Definition endsRejected (log : list fetch) : Prop :=
  exists f, last log = Some f ∧ returned (response f) = false.

(** The videos of a log whose fetch brought comments, in order *)
Definition answeredVideos (log : list fetch) : list string :=
  videoId <$> filter (fun f => returned (response f) = true) log.

End Youtube.
Import Youtube.

(** ** Metrics of a transition map (the same code in both variants) *)

Module Metrics.

(** [Object.keys] and [Object.values]. A JavaScript object lists its
    entries in the order of insertion, a [gmap] in an order of its own;
    the metrics below count and add, and depend on neither. *)
Definition Object_keys (m : IMarkovMap) : list string := (map_to_list m).*1.

Definition Object_values (m : IMarkovMap) : list (list string) :=
  (map_to_list m).*2.

(** [Array.prototype.flat] on an array of arrays *)
Definition flat {A} (a : list (list A)) : list A := concat a.

Definition getKeyCount (m : IMarkovMap) : Z :=
  Z.of_nat (length (Object_keys m)).

Definition getKeyValueRatio (m : IMarkovMap) : number :=
  let totalValues :=
    foldl (fun total tokenArray => total + Z.of_nat (length tokenArray))
          0 (Object_values m) in
  divide totalValues (getKeyCount m).

Definition getSentencesProcessed `{Library} (m : IMarkovMap) : Z :=
  Z.of_nat (length (filter (fun token => token = END) (flat (Object_values m)))).

End Metrics.
Import Metrics.

(** ** The split layout: map, harvested IDs and comments in three files *)

Module Split.

Definition QUOTA_COST_PER_FETCH : Z := 4.
Definition MAX_QUOTA_PER_DAY : Z := 10000.
Definition COMMENTS_PER_BATCH : Z := 100.
(** The quotient is exact, so the integer division is the JavaScript one. *)
Definition MAX_COMMENTS_PER_DAY : Z :=
  (MAX_QUOTA_PER_DAY / QUOTA_COST_PER_FETCH) * COMMENTS_PER_BATCH.
Definition MAX_COMMENTS_PER_VIDEO : Z := 10000.
Definition MAX_VIDEOS_PER_UPDATE : Z := 50.
Definition CHAIN_LENGTH : nat := 3.

Record YoutubeMarkov := {
  apiKey : string;
  pathToMapStorage : path;
  pathToVideosProcessedStorage : path;
  pathToCommentStorage : path;
  map : IMarkovMap;
  harvestedYoutubeIDs : gset string
}.

(** The constructor. The [map] field is declared without a value; the
    empty map stands for the unassigned field. [initialise] assigns the
    field on every path on which it returns, and the other methods are
    for an object whose [initialise] has returned: on an object that is
    only constructed they would read [undefined]. Every value of the
    record is the state of an initialised object, the one that
    [initialise] loads from a disk that holds its map and its IDs. *)
Definition construct (key : string) (pMap pIds pComments : path)
  : YoutubeMarkov :=
  {| apiKey := key;
     pathToMapStorage := pMap;
     pathToVideosProcessedStorage := pIds;
     pathToCommentStorage := pComments;
     map := ∅;
     harvestedYoutubeIDs := ∅ |}.

Record World := {
  this : YoutubeMarkov;
  disk : filesystem;
  fetches : list fetch
}.

Definition set_map (m : IMarkovMap) (w : World) : World :=
  {| this := {| apiKey := apiKey (this w);
                pathToMapStorage := pathToMapStorage (this w);
                pathToVideosProcessedStorage := pathToVideosProcessedStorage (this w);
                pathToCommentStorage := pathToCommentStorage (this w);
                map := m;
                harvestedYoutubeIDs := harvestedYoutubeIDs (this w) |};
     disk := disk w;
     fetches := fetches w |}.

Definition set_harvestedYoutubeIDs (ids : gset string) (w : World) : World :=
  {| this := {| apiKey := apiKey (this w);
                pathToMapStorage := pathToMapStorage (this w);
                pathToVideosProcessedStorage := pathToVideosProcessedStorage (this w);
                pathToCommentStorage := pathToCommentStorage (this w);
                map := map (this w);
                harvestedYoutubeIDs := ids |};
     disk := disk w;
     fetches := fetches w |}.

Definition set_disk (d : filesystem) (w : World) : World :=
  {| this := this w; disk := d; fetches := fetches w |}.

Definition log_fetch (f : fetch) (w : World) : World :=
  {| this := this w; disk := disk w; fetches := (fetches w ++ [f])%list |}.

(** A file-system call that changes the disk or throws *)
Definition onDisk (op : filesystem -> outcome filesystem) : Async World unit :=
  fun w =>
    match op (disk w) with
    | Returned d => (Returned tt, set_disk d w)
    | Thrown e => (Thrown e, w)
    end.

(** A file-system call that reads the disk or throws *)
Definition fromDisk {A} (op : filesystem -> outcome A) : Async World A :=
  fun w => (op (disk w), w).

Local Open Scope async_scope.

Section Methods.
Context `{Library} `{Json}.

Definition saveJSONToFile {T} (stringify : T -> string) (obj : T)
  (filePath : path) : Async World unit :=
  let dir := dirname filePath in
  let* present := gets (fun w => existsSync (disk w) dir) in
  (if negb present then onDisk (fun d => mkdirSync d dir) else ret tt) ;;;
  onDisk (fun d => writeFile d filePath (stringify obj)).

Definition loadJSONFromFile {T} (parse : string -> option T)
  (filePath : path) : Async World (option T) :=
  try_catch
    (let* json := fromDisk (fun d => readFile d filePath) in
     match parse json with
     | Some value => ret (Some value)
     | None => throw SyntaxError
     end)
    (ret None).

Definition loadFile (filePath : path) : Async World (option string) :=
  try_catch
    (let* contents := fromDisk (fun d => readFile d filePath) in
     ret (Some contents))
    (ret None).

Definition saveDataToStorage : Async World unit :=
  let* self := gets this in
  detached (saveJSONToFile stringify_ids
              (elements (harvestedYoutubeIDs self))
              (pathToVideosProcessedStorage self)) ;;;
  detached (saveJSONToFile stringify_map (map self) (pathToMapStorage self)).

Definition saveCommentsToStorage (comments : list string) : Async World unit :=
  let* self := gets this in
  let dir := dirname (pathToCommentStorage self) in
  let* present := gets (fun w => existsSync (disk w) dir) in
  (if negb present then onDisk (fun d => mkdirSync d dir) else ret tt) ;;;
  onDisk (fun d => appendFile d (pathToCommentStorage self)
                     (join newline comments)).

Definition loadDataFromStorage : Async World unit :=
  let* self := gets this in
  (* first load the IDs *)
  let* ids := loadJSONFromFile parse_ids (pathToVideosProcessedStorage self) in
  match ids with
  | Some ids =>
      let* harvested := lift (new_Set ids) in
      modify (set_harvestedYoutubeIDs harvested)
  | None => ret tt
  end ;;;
  (* next try and load the map *)
  let* storedMap := loadJSONFromFile parse_map (pathToMapStorage self) in
  match storedMap with
  | Some m => modify (set_map m)
  | None =>
      (* Create a fresh map *)
      modify (set_map (createDictionaryFromInput "" CHAIN_LENGTH)) ;;;
      let* allCommentsEver := loadFile (pathToCommentStorage self) in
      match allCommentsEver with
      | Some text =>
          modify (fun w => set_map (updateDictionaryFromInput text
                                      (map (this w)) CHAIN_LENGTH) w) ;;;
          saveDataToStorage
      | None => ret tt
      end
  end.

Definition initialise : Async World unit := loadDataFromStorage.

(** The [for ... of] loop of [updateMapFromYoutube] over the videos
    still to visit, with the running [commentsFetched]; its result is
    the value of [commentsFetched] when the loop is left. *)
Fixpoint harvest (yt : Collaborators) (trending : list string)
  (commentsFetched : Z) : Async World Z :=
  match trending with
  | [] => ret commentsFetched
  | video :: rest =>
      let* self := gets this in
      let answer := fetchAllCommentsForVideo yt video (apiKey self)
                      MAX_COMMENTS_PER_VIDEO in
      modify (log_fetch {| videoId := video; response := answer |}) ;;;
      let* comments := lift answer in
      let commentsFetched := commentsFetched + Z.of_nat (length comments) in
      modify (fun w => set_map (updateDictionaryFromInput
                                  (join newline comments)
                                  (map (this w)) CHAIN_LENGTH) w) ;;;
      modify (fun w => set_harvestedYoutubeIDs
                         ({[video]} ∪ harvestedYoutubeIDs (this w)) w) ;;;
      detached (saveCommentsToStorage comments) ;;;
      (* Try not to go over our quota in the next fetch *)
      if commentsFetched + MAX_COMMENTS_PER_VIDEO >? MAX_COMMENTS_PER_DAY
      then ret commentsFetched
      else harvest yt rest commentsFetched
  end.

(** The videos a cycle is going to visit *)
Definition trendingBatch (harvested : gset string) (videos : list string)
  : list string :=
  slice0 MAX_VIDEOS_PER_UPDATE
    (filter (fun videoID => videoID ∉ harvested) videos).

Definition updateMapFromYoutube (yt : Collaborators) : Async World unit :=
  let* self := gets this in
  let* videos := lift (fetchTrendingVideos yt (apiKey self)) in
  let trending := trendingBatch (harvestedYoutubeIDs self) videos in
  harvest yt trending 0 ;;;
  detached saveDataToStorage.

(** The world after one pass of the loop body in which the fetch of
    [video] answered [comments] *)
Definition visited (video : string) (comments : list string) (w : World)
  : World :=
  snd (saveCommentsToStorage comments
         (set_harvestedYoutubeIDs ({[video]} ∪ harvestedYoutubeIDs (this w))
            (set_map (updateDictionaryFromInput (join newline comments)
                        (map (this w)) CHAIN_LENGTH)
               (log_fetch {| videoId := video; response := Returned comments |}
                  w)))).

(** The world after the first step of [loadDataFromStorage], the
    loading of the IDs *)
Definition idsLoaded (w : World) : World :=
  match stored parse_ids (disk w) (pathToVideosProcessedStorage (this w)) with
  | Some (IdArray ids) => set_harvestedYoutubeIDs (list_to_set ids) w
  | _ => w
  end.

(** The IDs that the index file holds *)
Definition storedIds (w : World) : gset string :=
  match stored parse_ids (disk w) (pathToVideosProcessedStorage (this w)) with
  | Some (IdArray ids) => list_to_set ids
  | _ => ∅
  end.

(** A cycle without incident: the trending list, if it comes, has no
    video twice, and no comment fetch for a video of the list is
    rejected. *)
Definition smoothCycle (key : string) (yt : Collaborators) : bool :=
  match fetchTrendingVideos yt key with
  | Returned videos =>
      bool_decide (NoDup videos) &&
      forallb (fun video =>
                 returned (fetchAllCommentsForVideo yt video key
                             MAX_COMMENTS_PER_VIDEO)) videos
  | Thrown _ => true
  end.

(** A process: the object is constructed and initialised on the disk it
    finds, then harvest cycles follow; a restart is a new process on
    the disk the old one left. When [initialise] is rejected the [map]
    field has never been assigned: the process ends there and runs no
    cycle on that object, until it is restarted. *)
Inductive event :=
| Cycle (yt : Collaborators)
| Restart.

Inductive process :=
| Running (w : World)
| Halted (w : World).

Definition world (p : process) : World :=
  match p with Running w | Halted w => w end.

Definition boot (key : string) (pMap pIds pComments : path)
  (d : filesystem) (log : list fetch) : process :=
  match initialise {| this := construct key pMap pIds pComments;
                      disk := d;
                      fetches := log |} with
  | (Returned _, w) => Running w
  | (Thrown _, w) => Halted w
  end.

Definition step (p : process) (e : event) : process :=
  match e with
  | Cycle yt =>
      match p with
      | Running w => Running (snd (updateMapFromYoutube yt w))
      | Halted w => Halted w
      end
  | Restart =>
      let w := world p in
      boot (apiKey (this w)) (pathToMapStorage (this w))
           (pathToVideosProcessedStorage (this w))
           (pathToCommentStorage (this w)) (disk w) (fetches w)
  end.

Definition run (events : list event) (p : process) : process :=
  foldl step p events.

Definition smoothEvent (key : string) (e : event) : bool :=
  match e with
  | Cycle yt => smoothCycle key yt
  | Restart => true
  end.

End Methods.

(** The fetches that were logged between two worlds *)
Definition fetchedDuring (before after : World) : list fetch :=
  drop (length (fetches before)) (fetches after).

(** A video has been through the loop body: its fetch is the first one
    logged since [w], it is marked as harvested, and every window of
    every message of its comments has its successor in the map. *)
Definition harvestedFirst `{Library} (K : nat) (video : string)
  (comments : list string) (log : list fetch) (ids : gset string)
  (m : IMarkovMap) : Prop :=
  head log = Some {| videoId := video; response := Returned comments |} ∧
  video ∈ ids ∧
  forall message window,
    message ∈ splitInputIntoMessages (join newline comments) ->
    window ∈ windows K (wrapMessage K message) ->
    window.2 ∈ successors m (serialiseKey window.1).

Definition getVideosProcessed (self : YoutubeMarkov) : Z :=
  Z.of_nat (size (harvestedYoutubeIDs self)).

(** [getSizeOnDisk]: the size of the map file in bytes, zero when
    nothing is at its path *)
Definition getSizeOnDisk (directorySize : path -> Z) (w : World) : outcome Z :=
  if existsSync (disk w) (pathToMapStorage (this w))
  then statSync_size directorySize (disk w) (pathToMapStorage (this w))
  else Returned 0.

(** Two worlds whose objects were constructed with the same arguments *)
Definition sameConfig (w w' : World) : Prop :=
  apiKey (this w') = apiKey (this w) ∧
  pathToMapStorage (this w') = pathToMapStorage (this w) ∧
  pathToVideosProcessedStorage (this w') = pathToVideosProcessedStorage (this w) ∧
  pathToCommentStorage (this w') = pathToCommentStorage (this w).

(** The storage of an object is in place: the three storage paths are
    writable and the map and the ID index are different files. *)
Definition storageReady (w : World) : Prop :=
  writable (disk w) (pathToMapStorage (this w)) = true ∧
  writable (disk w) (pathToVideosProcessedStorage (this w)) = true ∧
  writable (disk w) (pathToCommentStorage (this w)) = true ∧
  pathToMapStorage (this w) ≠ pathToVideosProcessedStorage (this w).

(** The invariant of a process: the storage is in place, no video was
    fetched twice, and every fetched video is in the harvested set and
    in the index on disk. *)
Definition steady `{Json} (key : string) (w : World) : Prop :=
  apiKey (this w) = key ∧
  storageReady w ∧
  NoDup (videoId <$> fetches w) ∧
  forall video, video ∈ videoId <$> fetches w ->
    video ∈ harvestedYoutubeIDs (this w) ∧ video ∈ storedIds w.

End Split.

(** ** The legacy layout: map and harvested IDs in one file *)

Module Legacy.

Definition QUOTA_COST_PER_FETCH : Z := 4.
Definition MAX_QUOTA_PER_DAY : Z := 10000.
Definition COMMENTS_PER_BATCH : Z := 100.
Definition MAX_COMMENTS_PER_DAY : Z :=
  (MAX_QUOTA_PER_DAY / QUOTA_COST_PER_FETCH) * COMMENTS_PER_BATCH.
Definition MAX_COMMENTS_PER_VIDEO : Z := 100.
Definition MAX_VIDEOS_PER_UPDATE : Z := 5.
Definition CHAIN_LENGTH : nat := 2.

Record YoutubeMarkov := {
  apiKey : string;
  pathToFile : path;
  map : IMarkovMap;
  harvestedYoutubeIDs : gset string
}.

(** The [map] field is unassigned until [initialise], which assigns it
    on every path; the empty map stands for the unassigned field, as in
    the split layout. *)
Definition construct (key : string) (file : path) : YoutubeMarkov :=
  {| apiKey := key; pathToFile := file; map := ∅; harvestedYoutubeIDs := ∅ |}.

Record World := {
  this : YoutubeMarkov;
  disk : filesystem;
  fetches : list fetch
}.

Definition set_map (m : IMarkovMap) (w : World) : World :=
  {| this := {| apiKey := apiKey (this w);
                pathToFile := pathToFile (this w);
                map := m;
                harvestedYoutubeIDs := harvestedYoutubeIDs (this w) |};
     disk := disk w;
     fetches := fetches w |}.

Definition set_harvestedYoutubeIDs (ids : gset string) (w : World) : World :=
  {| this := {| apiKey := apiKey (this w);
                pathToFile := pathToFile (this w);
                map := map (this w);
                harvestedYoutubeIDs := ids |};
     disk := disk w;
     fetches := fetches w |}.

Definition set_disk (d : filesystem) (w : World) : World :=
  {| this := this w; disk := d; fetches := fetches w |}.

Definition log_fetch (f : fetch) (w : World) : World :=
  {| this := this w; disk := disk w; fetches := (fetches w ++ [f])%list |}.

Definition onDisk (op : filesystem -> outcome filesystem) : Async World unit :=
  fun w =>
    match op (disk w) with
    | Returned d => (Returned tt, set_disk d w)
    | Thrown e => (Thrown e, w)
    end.

Definition fromDisk {A} (op : filesystem -> outcome A) : Async World A :=
  fun w => (op (disk w), w).

Local Open Scope async_scope.

Section Methods.
Context `{Library} `{Json}.

(** When the document has no [map] member the assignment makes the
    field [undefined], and the line that logs the number of keys throws
    after the IDs have been replaced; the model leaves the old map in
    the field up to that throw, and the handler of [initialise], the
    only caller, assigns the field next. *)
Definition loadMapFromStorage : Async World unit :=
  let* self := gets this in
  let* json := fromDisk (fun d => readFile d (pathToFile self)) in
  match parse_structure json with
  | Some data =>
      match fst data with
      | Some m => modify (set_map m)
      | None => ret tt
      end ;;;
      let* harvested := lift (new_Set (snd data)) in
      modify (set_harvestedYoutubeIDs harvested) ;;;
      (* Object.keys(this.map) in the log line *)
      match fst data with
      | Some _ => ret tt
      | None => throw TypeError
      end
  | None => throw SyntaxError
  end.

Definition initialise : Async World unit :=
  try_catch loadMapFromStorage
    (modify (set_map (createDictionaryFromInput "" CHAIN_LENGTH))).

Definition saveMapToStorage : Async World unit :=
  let* self := gets this in
  (* Ensure the folder exists before we create it *)
  let dir := dirname (pathToFile self) in
  let* present := gets (fun w => existsSync (disk w) dir) in
  (if negb present then onDisk (fun d => mkdirSync d dir) else ret tt) ;;;
  let data := (map self, elements (harvestedYoutubeIDs self)) in
  onDisk (fun d => writeFile d (pathToFile self) (stringify_structure data)).

Fixpoint harvest (yt : Collaborators) (trending : list string)
  (commentsFetched : Z) : Async World Z :=
  match trending with
  | [] => ret commentsFetched
  | video :: rest =>
      let* self := gets this in
      let answer := fetchAllCommentsForVideo yt video (apiKey self)
                      MAX_COMMENTS_PER_VIDEO in
      modify (log_fetch {| videoId := video; response := answer |}) ;;;
      let* comments := lift answer in
      let commentsFetched := commentsFetched + Z.of_nat (length comments) in
      modify (fun w => set_map (updateDictionaryFromInput
                                  (join newline comments)
                                  (map (this w)) CHAIN_LENGTH) w) ;;;
      modify (fun w => set_harvestedYoutubeIDs
                         ({[video]} ∪ harvestedYoutubeIDs (this w)) w) ;;;
      (* Try not to go over our quota in the next fetch *)
      if commentsFetched + MAX_COMMENTS_PER_VIDEO >? MAX_COMMENTS_PER_DAY
      then ret commentsFetched
      else harvest yt rest commentsFetched
  end.

Definition trendingBatch (harvested : gset string) (videos : list string)
  : list string :=
  slice0 MAX_VIDEOS_PER_UPDATE
    (filter (fun videoID => videoID ∉ harvested) videos).

Definition updateMapFromYoutube (yt : Collaborators) : Async World unit :=
  let* self := gets this in
  let* videos := lift (fetchTrendingVideos yt (apiKey self)) in
  let trending := trendingBatch (harvestedYoutubeIDs self) videos in
  harvest yt trending 0 ;;;
  detached saveMapToStorage.

(** The world after one pass of the loop body in which the fetch of
    [video] answered [comments] *)
Definition visited (video : string) (comments : list string) (w : World)
  : World :=
  set_harvestedYoutubeIDs ({[video]} ∪ harvestedYoutubeIDs (this w))
    (set_map (updateDictionaryFromInput (join newline comments)
                (map (this w)) CHAIN_LENGTH)
       (log_fetch {| videoId := video; response := Returned comments |} w)).

(** A new process of the legacy layout on the disk and with the log of
    an old one *)
Definition restart (w : World) : World :=
  snd (initialise {| this := construct (apiKey (this w)) (pathToFile (this w));
                     disk := disk w;
                     fetches := fetches w |}).

End Methods.

(** The fetches that were logged between two worlds *)
Definition fetchedDuring (before after : World) : list fetch :=
  drop (length (fetches before)) (fetches after).

End Legacy.

(** ** A concrete library, codec and disk, to run the model on *)

Module Sample.

(** The pieces of a text between occurrences of a separator *)
Fixpoint splitOn (sep : ascii) (text piece : string) : list string :=
  match text with
  | EmptyString => [piece]
  | String c rest =>
      if Ascii.eqb c sep then piece :: splitOn sep rest EmptyString
      else splitOn sep rest (piece +:+ String c EmptyString)
  end.

Definition nonEmpty (s : string) : bool :=
  match s with EmptyString => false | _ => true end.

Definition isNil {A} (l : list A) : bool :=
  match l with [] => true | _ => false end.

Definition words (line : string) : list string :=
  List.filter nonEmpty (splitOn " "%char line EmptyString).

(** One message per non-blank line, one token per word. *)
Definition messages (text : string) : list (list string) :=
  List.filter (fun m => negb (isNil m))
    (List.map words (splitOn (ascii_of_nat 10) text EmptyString)).

#[export] Instance library : Library := {|
  START := "<START>";
  END := "<END>";
  splitInputIntoMessages := messages;
  serialiseKey := String.concat " "
|}.

(** A stand-in for JSON: a value is written as the binary digits of its
    code as a countable type, so that reading gives back what was
    written. *)
Fixpoint digits (p : positive) : string :=
  match p with
  | xH => EmptyString
  | xO q => String "0" (digits q)
  | xI q => String "1" (digits q)
  end.

Fixpoint number_of (s : string) : option positive :=
  match s with
  | EmptyString => Some xH
  | String c rest =>
      match number_of rest with
      | Some q =>
          if Ascii.eqb c "0" then Some (xO q)
          else if Ascii.eqb c "1" then Some (xI q)
          else None
      | None => None
      end
  end.

Definition write {A} `{Countable A} (a : A) : string := digits (encode a).

Definition read {A} `{Countable A} (s : string) : option A :=
  match number_of s with
  | Some p => decode p
  | None => None
  end.

(** Two documents that the class does not write itself are read as
    JSON reads them: the number [5] and the object [{}] without
    members. *)
Definition foreign (s : string) : bool :=
  String.eqb s "5" || String.eqb s "{}".

#[export] Instance json : Json := {|
  stringify_ids := write;
  parse_ids := fun s =>
    if foreign s then Some NotIterable else IdArray <$> read s;
  stringify_map := write;
  parse_map := read;
  stringify_structure := write;
  parse_structure := fun s =>
    if foreign s then Some (None, IdArray [])
    else (fun data : IMarkovMap * list string =>
            (Some (fst data), IdArray (snd data))) <$> read s
|}.

(** A disk with a [data] folder and nothing in it *)
Definition emptyDisk : filesystem :=
  {| dirs := {[ ["data"] ]}; files := ∅ |}.

(** A disk without any folder *)
Definition bareDisk : filesystem := {| dirs := ∅; files := ∅ |}.

Definition mapPath : path := ["data"; "map.json"].
Definition idsPath : path := ["data"; "videos.json"].
Definition commentsPath : path := ["data"; "comments.txt"].

(** YouTube with a fixed trending list where every video has the same
    two comments, of which at most the asked number is returned *)
Definition youtube (videos : list string) : Collaborators :=
  {| fetchTrendingVideos := fun _ => Returned videos;
     fetchAllCommentsForVideo := fun _ _ maxCount =>
       Returned (take (Z.to_nat maxCount) ["a b c"; "b c d"]) |}.

(** YouTube whose comment fetch is rejected for one video *)
Definition youtubeFailingOn (bad : string) (videos : list string)
  : Collaborators :=
  {| fetchTrendingVideos := fun _ => Returned videos;
     fetchAllCommentsForVideo := fun video _ maxCount =>
       if String.eqb video bad then Thrown RequestError
       else Returned (take (Z.to_nat maxCount) ["a b c"; "b c d"]) |}.

(** Storage two folders deep *)
Definition nestedMapPath : path := ["data"; "markov"; "map.json"].
Definition nestedIdsPath : path := ["data"; "markov"; "videos.json"].
Definition nestedCommentsPath : path := ["data"; "markov"; "comments.txt"].

(** A disk with a [data] folder that holds a corpus log only *)
Definition loggedDisk : filesystem :=
  {| dirs := {[ ["data"] ]};
     files := {[ commentsPath := "a b c" +:+ newline +:+ "b c d" ]} |}.

(** A disk whose ID index holds the number [5] *)
Definition misshapenDisk : filesystem :=
  {| dirs := {[ ["data"] ]}; files := {[ idsPath := "5" ]} |}.

(** A newly constructed object of the split layout on a disk *)
Definition splitWorld (d : filesystem) : Split.World :=
  {| Split.this := Split.construct "key" mapPath idsPath commentsPath;
     Split.disk := d;
     Split.fetches := [] |}.

Definition nestedSplitWorld (d : filesystem) : Split.World :=
  {| Split.this := Split.construct "key" nestedMapPath nestedIdsPath
                     nestedCommentsPath;
     Split.disk := d;
     Split.fetches := [] |}.



(** A newly constructed object of the legacy layout on a disk *)
Definition legacyWorld (file : path) (d : filesystem) : Legacy.World :=
  {| Legacy.this := Legacy.construct "key" file;
     Legacy.disk := d;
     Legacy.fetches := [] |}.

(** The world that a cycle over two videos leaves on [emptyDisk] *)
Definition harvestedWorld : Split.World :=
  snd (Split.updateMapFromYoutube (youtube ["a"; "b"]) (splitWorld emptyDisk)).

(** What a log of fetches shows: the video and whether comments came *)
Definition answered (log : list fetch) : list (string * bool) :=
  (fun f => (videoId f, returned (response f))) <$> log.

End Sample.

(** * Properties *)

(** ** The file system *)

Section FileSystem.

Lemma writable_dir d p : writable d p = true -> isDirectory d (dirname p) = true.
Proof. unfold writable. intros [? _]%andb_prop. done. Qed.

Lemma writable_not_dir d p : writable d p = true -> isDirectory d p = false.
Proof.
  unfold writable. intros [_ Hn]%andb_prop. by apply negb_true_iff in Hn.
Qed.

Lemma writable_exists d p : writable d p = true -> existsSync d (dirname p) = true.
Proof. intros Hw. unfold existsSync. by rewrite (writable_dir _ _ Hw). Qed.

Lemma writeFile_writable d p data :
  writable d p = true -> writeFile d p data = Returned (written d p data).
Proof.
  intros Hw. unfold writeFile.
  by rewrite (writable_not_dir _ _ Hw), (writable_dir _ _ Hw).
Qed.

Lemma appendFile_writable d p data :
  writable d p = true ->
  appendFile d p data =
  Returned (written d p (default "" (files d !! p) +:+ data)).
Proof.
  intros Hw. unfold appendFile.
  by rewrite (writable_not_dir _ _ Hw), (writable_dir _ _ Hw).
Qed.

Lemma writable_written d q data p :
  writable (written d q data) p = writable d p.
Proof. reflexivity. Qed.

Lemma readFile_writable d p :
  writable d p = true ->
  readFile d p = match files d !! p with
                 | Some text => Returned text
                 | None => Thrown ENOENT
                 end.
Proof. intros Hw. unfold readFile. by rewrite (writable_not_dir _ _ Hw). Qed.

End FileSystem.

(** ** The transition map *)

Section DictionaryFacts.
Context `{Library}.

Lemma successors_record_same m w :
  successors (recordSuccessor m w) (serialiseKey w.1) =
  (successors m (serialiseKey w.1) ++ [w.2])%list.
Proof. unfold recordSuccessor, successors at 1. by rewrite lookup_insert_eq. Qed.

Lemma successors_record_other m w key :
  key ≠ serialiseKey w.1 ->
  successors (recordSuccessor m w) key = successors m key.
Proof.
  intros Hne. unfold recordSuccessor, successors at 1.
  by rewrite lookup_insert_ne.
Qed.

(** Recording never removes a successor. *)
Lemma recordSuccessor_keeps m w key s :
  s ∈ successors m key -> s ∈ successors (recordSuccessor m w) key.
Proof.
  intros Hin. destruct (decide (key = serialiseKey w.1)) as [-> | Hne].
  - rewrite successors_record_same. apply elem_of_app. by left.
  - by rewrite successors_record_other.
Qed.

Lemma record_all_keeps ws : forall m key s,
  s ∈ successors m key -> s ∈ successors (foldl recordSuccessor m ws) key.
Proof.
  induction ws as [| w ws IH]; intros m key s Hin; cbn; [done |].
  by apply IH, recordSuccessor_keeps.
Qed.

Lemma record_all_records ws : forall m w,
  w ∈ ws -> w.2 ∈ successors (foldl recordSuccessor m ws) (serialiseKey w.1).
Proof.
  induction ws as [| w' ws IH]; intros m w Hin; cbn.
  - by apply elem_of_nil in Hin.
  - apply elem_of_cons in Hin as [-> | Hin]; [| by apply IH].
    apply record_all_keeps. rewrite successors_record_same.
    apply elem_of_app. right. by apply list_elem_of_singleton.
Qed.

Lemma update_unfold text m K :
  updateDictionaryFromInput text m K =
  foldl (recordMessage K) m (splitInputIntoMessages text).
Proof. reflexivity. Qed.

Lemma record_messages_keep K messages : forall m key s,
  s ∈ successors m key ->
  s ∈ successors (foldl (recordMessage K) m messages) key.
Proof.
  induction messages as [| msg messages IH]; intros m key s Hin; cbn; [done |].
  by apply IH, record_all_keeps.
Qed.

(** An update never removes a successor from the map. *)
Lemma update_keeps text m K key s :
  s ∈ successors m key ->
  s ∈ successors (updateDictionaryFromInput text m K) key.
Proof. rewrite update_unfold. apply record_messages_keep. Qed.

(** An update records every window of every message of its text. *)
Lemma update_records text m K message w :
  message ∈ splitInputIntoMessages text ->
  w ∈ windows K (wrapMessage K message) ->
  w.2 ∈ successors (updateDictionaryFromInput text m K) (serialiseKey w.1).
Proof.
  rewrite update_unfold. generalize (splitInputIntoMessages text) as messages.
  intros messages. revert m.
  induction messages as [| msg messages IH]; intros m Hmsg Hw; cbn.
  - by apply elem_of_nil in Hmsg.
  - apply elem_of_cons in Hmsg as [<- | Hmsg]; [| by apply IH].
    apply record_messages_keep. by apply record_all_records.
Qed.

Section EmptyText.
(** The tokenizer finds no message in the empty text (the spec's
    "empty input yields zero sequences"). *)
Hypothesis no_message_in_empty_text : splitInputIntoMessages "" = [].



End EmptyText.
End DictionaryFacts.

(** ** The metrics *)

Section MetricsFacts.
Context `{Library}.

(** The running total of [getKeyValueRatio] is the sum of the lengths. *)
Lemma total_values_sum (values : list (list string)) : forall start,
  foldl (fun total tokenArray => total + Z.of_nat (length tokenArray))
        start values =
  start + Z.of_nat (sum_list (length <$> values)).
Proof.
  induction values as [| v values IH]; intros start; cbn.
  - lia.
  - rewrite IH. lia.
Qed.

Lemma getKeyCount_size (m : IMarkovMap) : getKeyCount m = Z.of_nat (size m).
Proof.
  unfold getKeyCount, Object_keys.
  by rewrite length_fmap, length_map_to_list.
Qed.

Lemma Object_values_empty : Object_values ∅ = [].
Proof. unfold Object_values. by rewrite map_to_list_empty. Qed.

Lemma filter_length_count token (tokens : list string) :
  length (filter (fun t => t = token) tokens) =
  count_occ string_dec tokens token.
Proof.
  induction tokens as [| t tokens IH]; [done |].
  rewrite filter_cons. cbn [count_occ].
  destruct (string_dec t token) as [-> | Hne].
  - rewrite decide_True by done. cbn. by rewrite IH.
  - by rewrite decide_False.
Qed.

Lemma count_flat token (values : list (list string)) :
  count_occ string_dec (flat values) token =
  sum_list ((fun tokenArray => count_occ string_dec tokenArray token) <$> values).
Proof.
  unfold flat.
  induction values as [| v values IH]; cbn; [done |].
  by rewrite count_occ_app, IH.
Qed.

Lemma sum_values_fold (f : list string -> nat) (m : IMarkovMap) :
  sum_list (f <$> Object_values m) =
  map_fold (fun _ tokenArray total => f tokenArray + total)%nat 0%nat m.
Proof.
  unfold Object_values. rewrite map_fold_foldr.
  induction (map_to_list m) as [| [k v] l IH]; cbn; [done |].
  by rewrite IH.
Qed.

Lemma sentences_processed_sum (m : IMarkovMap) :
  getSentencesProcessed m =
  Z.of_nat (sum_list ((fun tokenArray => count_occ string_dec tokenArray END)
                        <$> Object_values m)).
Proof.
  unfold getSentencesProcessed. by rewrite filter_length_count, count_flat.
Qed.

(** C8: for every transition map, [getSentencesProcessed] is the total
    number of END tokens over all successor lists of the map, each
    occurrence counted. *)
Theorem sentences_processed_counts_END (m : IMarkovMap) :
  getSentencesProcessed m =
  Z.of_nat (map_fold (fun _ tokenArray total =>
                        count_occ string_dec tokenArray END + total)%nat
                     0%nat m).
Proof.
  unfold getSentencesProcessed.
  rewrite filter_length_count, count_flat.
  by rewrite (sum_values_fold (fun tokenArray => count_occ string_dec tokenArray END)).
Qed.

Lemma sentences_processed_empty : getSentencesProcessed ∅ = 0.
Proof. unfold getSentencesProcessed. by rewrite Object_values_empty. Qed.

Lemma count_fold_insert token (m : IMarkovMap) key tokenArray :
  (map_fold (fun _ tokens total => count_occ string_dec tokens token + total)
            0 (<[key := tokenArray]> m)
   + count_occ string_dec (successors m key) token)%nat =
  (count_occ string_dec tokenArray token
   + map_fold (fun _ tokens total => count_occ string_dec tokens token + total)
              0 m)%nat.
Proof.
  assert (forall (m' : IMarkovMap) tokens, m' !! key = None ->
    map_fold (fun _ tokens total => count_occ string_dec tokens token + total)
      0 (<[key := tokens]> m') =
    count_occ string_dec tokens token
    + map_fold (fun _ tokens total => count_occ string_dec tokens token + total)
        0 m')%nat as Hfresh.
  { intros m' tokens Hnone.
    rewrite map_fold_insert_L; [done | intros; lia | done]. }
  unfold successors. destruct (m !! key) as [old |] eqn:Hold; cbn.
  - rewrite <- (insert_delete_eq m key tokenArray).
    rewrite (Hfresh (delete key m)) by apply lookup_delete_eq.
    pose proof (Hfresh (delete key m) old (lookup_delete_eq m key)) as Hold'.
    rewrite (insert_delete_id m key old Hold) in Hold'. lia.
  - rewrite Hfresh by done. lia.
Qed.

(** Recording a window adds one sentence when its successor is END and
    none otherwise. *)
Lemma sentences_processed_record (m : IMarkovMap) w :
  getSentencesProcessed (recordSuccessor m w) =
  getSentencesProcessed m + (if decide (w.2 = END) then 1 else 0).
Proof.
  rewrite !sentences_processed_sum, !sum_values_fold. unfold recordSuccessor.
  pose proof (count_fold_insert END m (serialiseKey w.1)
                (successors m (serialiseKey w.1) ++ [w.2])) as Hsum.
  rewrite count_occ_app in Hsum. cbn [count_occ] in Hsum.
  destruct (string_dec w.2 END) as [Heq | Hne].
  - rewrite decide_True by done. lia.
  - rewrite decide_False by done. lia.
Qed.

(** C7, as the code has it: on an empty map [getKeyValueRatio] is
    [NaN], the quotient of zero by zero; on a map with keys it is the
    total number of successors divided by the number of keys. *)
Theorem key_value_ratio_value (m : IMarkovMap) :
  getKeyValueRatio m =
  match size m with
  | O => NaN
  | S n => Num (QArith_base.Qmake
                  (Z.of_nat (sum_list (length <$> Object_values m)))
                  (Pos.of_succ_nat n))
  end.
Proof.
  unfold getKeyValueRatio. rewrite total_values_sum, getKeyCount_size.
  destruct (size m) as [| n] eqn:Hsize.
  - apply map_size_empty_inv in Hsize. subst m.
    by rewrite Object_values_empty.
  - cbn. by rewrite Z.add_0_l.
Qed.

(** C7 as stated fails: the ratio of the empty map is [NaN], which is
    no number at all, zero or other. *)
Lemma key_value_ratio_empty_not_a_number :
  getKeyValueRatio ∅ = NaN ∧ ¬ ∃ q, getKeyValueRatio ∅ = Num q.
Proof.
  split; [reflexivity |]. intros [q Hq]. discriminate Hq.
Qed.

End MetricsFacts.

(** ** The batch of the specification *)

Section Batch.

Lemma withoutHarvested_filter harvested videos :
  withoutHarvested harvested videos =
  filter (fun videoID => videoID ∉ harvested) videos.
Proof.
  induction videos as [| video rest IH]; [done |].
  cbn [withoutHarvested]. rewrite filter_cons.
  destruct (decide (video ∈ harvested)) as [Hin | Hout].
  - by rewrite decide_False by (intros Hn; by apply Hn).
  - by rewrite decide_True, IH.
Qed.

Lemma cutAfter_take {A} n (l : list A) : cutAfter n l = take n l.
Proof. revert l. induction n as [| n IH]; intros [| x l]; cbn; by rewrite ?IH. Qed.

Lemma batch_filter_take (limit : Z) (harvested : gset string)
  (videos : list string) :
  slice0 limit (filter (fun videoID => videoID ∉ harvested) videos) =
  batchOfSpec limit harvested videos.
Proof.
  unfold batchOfSpec, slice0.
  by rewrite cutAfter_take, withoutHarvested_filter.
Qed.

Lemma batch_filter_take_properties (limit : Z) (harvested : gset string)
  (videos : list string) :
  0 <= limit ->
  let batch :=
    slice0 limit (filter (fun videoID => videoID ∉ harvested) videos) in
  batch `sublist_of` videos ∧
  Z.of_nat (length batch) <= limit ∧
  Forall (fun video => video ∉ harvested) batch.
Proof.
  intros Hlimit. unfold slice0. cbn zeta. split; [| split].
  - etrans; [apply sublist_take | apply sublist_filter].
  - rewrite length_take. lia.
  - apply Forall_forall. intros video Hin.
    apply elem_of_take in Hin as (i & Hin & _).
    apply list_elem_of_lookup_2 in Hin.
    by apply list_elem_of_filter in Hin as [? _].
Qed.

End Batch.

(** ** The split layout *)

Module SplitFacts.
Import Split.

Ltac run_async :=
  unfold bind, gets, modify, ret, throw, lift, detached, try_catch,
    onDisk, fromDisk in *; cbn in *.

Section Facts.
Context `{Library} `{Json}.

(** *** The loop, one pass at a time *)

Lemma harvest_cons yt video rest c w :
  harvest yt (video :: rest) c w =
  match fetchAllCommentsForVideo yt video (apiKey (this w))
          MAX_COMMENTS_PER_VIDEO with
  | Thrown e =>
      (Thrown e, log_fetch {| videoId := video; response := Thrown e |} w)
  | Returned comments =>
      let c' := c + Z.of_nat (length comments) in
      if c' + MAX_COMMENTS_PER_VIDEO >? MAX_COMMENTS_PER_DAY
      then (Returned c', visited video comments w)
      else harvest yt rest c' (visited video comments w)
  end.
Proof.
  cbn [harvest]. unfold visited. run_async.
  destruct (fetchAllCommentsForVideo yt video (apiKey (this w))
              MAX_COMMENTS_PER_VIDEO) as [comments | e]; cbn; [| done].
  by destruct (_ >? _).
Qed.

Lemma saveComments_this comments w :
  this (snd (saveCommentsToStorage comments w)) = this w.
Proof.
  unfold saveCommentsToStorage. run_async.
  repeat (case_match; cbn in *; simplify_eq); done.
Qed.

Lemma saveComments_fetches comments w :
  fetches (snd (saveCommentsToStorage comments w)) = fetches w.
Proof.
  unfold saveCommentsToStorage. run_async.
  repeat (case_match; cbn in *; simplify_eq); done.
Qed.

Lemma visited_fetches video comments w :
  fetches (visited video comments w) =
  (fetches w ++ [{| videoId := video; response := Returned comments |}])%list.
Proof. unfold visited. by rewrite saveComments_fetches. Qed.

Lemma visited_apiKey video comments w :
  apiKey (this (visited video comments w)) = apiKey (this w).
Proof. unfold visited. by rewrite saveComments_this. Qed.

Lemma visited_paths video comments w :
  pathToMapStorage (this (visited video comments w)) = pathToMapStorage (this w) ∧
  pathToVideosProcessedStorage (this (visited video comments w)) =
    pathToVideosProcessedStorage (this w) ∧
  pathToCommentStorage (this (visited video comments w)) =
    pathToCommentStorage (this w).
Proof. unfold visited. by rewrite saveComments_this. Qed.

Lemma visited_harvested video comments w :
  harvestedYoutubeIDs (this (visited video comments w)) =
  {[video]} ∪ harvestedYoutubeIDs (this w).
Proof. unfold visited. by rewrite saveComments_this. Qed.

Lemma visited_map video comments w :
  map (this (visited video comments w)) =
  updateDictionaryFromInput (join newline comments) (map (this w)) CHAIN_LENGTH.
Proof. unfold visited. by rewrite saveComments_this. Qed.

Lemma saveJSON_this {T} (stringify : T -> string) obj p w :
  this (snd (saveJSONToFile stringify obj p w)) = this w.
Proof.
  unfold saveJSONToFile. run_async.
  repeat (case_match; cbn in *; simplify_eq); done.
Qed.

Lemma saveJSON_fetches {T} (stringify : T -> string) obj p w :
  fetches (snd (saveJSONToFile stringify obj p w)) = fetches w.
Proof.
  unfold saveJSONToFile. run_async.
  repeat (case_match; cbn in *; simplify_eq); done.
Qed.

Lemma saveData_unfold w :
  saveDataToStorage w =
  (Returned tt,
   snd (saveJSONToFile stringify_map (map (this w)) (pathToMapStorage (this w))
          (snd (saveJSONToFile stringify_ids
                  (elements (harvestedYoutubeIDs (this w)))
                  (pathToVideosProcessedStorage (this w)) w)))).
Proof. reflexivity. Qed.

Lemma saveData_this w : this (snd (saveDataToStorage w)) = this w.
Proof. rewrite saveData_unfold. cbn [snd]. by rewrite !saveJSON_this. Qed.

Lemma saveData_fetches w : fetches (snd (saveDataToStorage w)) = fetches w.
Proof. rewrite saveData_unfold. cbn [snd]. by rewrite !saveJSON_fetches. Qed.

(** *** What every run of the loop does *)

Lemma fetchedDuring_app w w' new :
  fetches w' = (fetches w ++ new)%list -> fetchedDuring w w' = new.
Proof. unfold fetchedDuring. intros ->. by rewrite drop_app_length. Qed.

Lemma sameConfig_refl w : sameConfig w w.
Proof. by repeat split. Qed.

Lemma sameConfig_trans w1 w2 w3 :
  sameConfig w1 w2 -> sameConfig w2 w3 -> sameConfig w1 w3.
Proof.
  unfold sameConfig. intros (? & ? & ? & ?) (? & ? & ? & ?).
  repeat split; congruence.
Qed.

Lemma visited_sameConfig video comments w :
  sameConfig w (visited video comments w).
Proof.
  unfold sameConfig. rewrite visited_apiKey.
  destruct (visited_paths video comments w) as (? & ? & ?). done.
Qed.

Lemma saveData_sameConfig w : sameConfig w (snd (saveDataToStorage w)).
Proof. unfold sameConfig. by rewrite saveData_this. Qed.

(** The loop keeps the configuration, only adds to the harvested IDs
    and to the successors of the map, and logs fetches for a prefix of
    the videos it was given, each with the collaborator's answer. *)
Lemma harvest_general yt trending : forall c w,
  let w' := snd (harvest yt trending c w) in
  sameConfig w w' ∧
  harvestedYoutubeIDs (this w) ⊆ harvestedYoutubeIDs (this w') ∧
  (forall key s, s ∈ successors (map (this w)) key ->
                 s ∈ successors (map (this w')) key) ∧
  exists new,
    fetches w' = (fetches w ++ new)%list ∧
    (videoId <$> new) `prefix_of` trending ∧
    Forall (fun f => response f =
                     fetchAllCommentsForVideo yt (videoId f) (apiKey (this w))
                       MAX_COMMENTS_PER_VIDEO) new.
Proof.
  induction trending as [| video rest IH]; intros c w; cbn zeta.
  - cbn. split; [apply sameConfig_refl |]. split; [done |]. split; [done |].
    exists []. rewrite app_nil_r. split; [done |]. split; [done |].
    constructor.
  - rewrite harvest_cons.
    destruct (fetchAllCommentsForVideo yt video (apiKey (this w))
                MAX_COMMENTS_PER_VIDEO) as [comments | e] eqn:Hanswer.
    + assert (Hone :
        sameConfig w (visited video comments w) ∧
        harvestedYoutubeIDs (this w) ⊆
          harvestedYoutubeIDs (this (visited video comments w)) ∧
        (forall key s, s ∈ successors (map (this w)) key ->
           s ∈ successors (map (this (visited video comments w))) key)).
      { split; [apply visited_sameConfig |].
        rewrite visited_harvested, visited_map.
        split; [set_solver |]. intros key s. apply update_keeps. }
      destruct Hone as (Hcfg & Hids & Hmap). cbn zeta.
      destruct (_ >? _).
      * cbn [snd]. split; [done |]. split; [done |]. split; [done |].
        eexists [_]. rewrite visited_fetches. split; [done |].
        split; [apply prefix_cons, prefix_nil |].
        constructor; [by cbn | constructor].
      * destruct (IH (c + Z.of_nat (length comments))
                    (visited video comments w))
          as (Hcfg' & Hids' & Hmap' & new & Hlog & Hpre & Hall).
        split; [by eapply sameConfig_trans |].
        split; [set_solver |].
        split; [intros key s Hs; by apply Hmap', Hmap |].
        exists ({| videoId := video; response := Returned comments |} :: new).
        rewrite Hlog, visited_fetches, <- app_assoc.
        split; [done |]. split; [by apply prefix_cons |].
        constructor; [by cbn |].
        by rewrite visited_apiKey in Hall.
    + cbn [snd]. split; [by repeat split |].
      split; [done |]. split; [done |].
      eexists [_]. split; [done |].
      split; [apply prefix_cons, prefix_nil |].
      constructor; [by cbn | constructor].
Qed.

(** When no fetch is rejected the loop returns, and the videos it
    logged are exactly the ones it marked as harvested. *)
Lemma harvest_success yt trending : forall c w,
  Forall (fun video =>
            returned (fetchAllCommentsForVideo yt video (apiKey (this w))
                        MAX_COMMENTS_PER_VIDEO) = true) trending ->
  exists c' visits,
    fst (harvest yt trending c w) = Returned c' ∧
    visits `prefix_of` trending ∧
    videoId <$> fetchedDuring w (snd (harvest yt trending c w)) = visits ∧
    harvestedYoutubeIDs (this (snd (harvest yt trending c w))) =
      list_to_set visits ∪ harvestedYoutubeIDs (this w).
Proof.
  induction trending as [| video rest IH]; intros c w Hok.
  - exists c, []. cbn. unfold fetchedDuring. cbn. rewrite drop_all.
    split; [done |]. split; [done |]. split; [done |]. set_solver.
  - apply Forall_cons in Hok as [Hvideo Hrest]. rewrite harvest_cons.
    destruct (fetchAllCommentsForVideo yt video (apiKey (this w))
                MAX_COMMENTS_PER_VIDEO) as [comments | e]; [| done].
    cbn zeta. destruct (_ >? _).
    + exists (c + Z.of_nat (length comments)), [video]. cbn [fst snd].
      split; [done |]. split; [apply prefix_cons, prefix_nil |].
      rewrite (fetchedDuring_app _ _ _ (visited_fetches video comments w)).
      rewrite visited_harvested. split; [done |]. set_solver.
    + destruct (IH (c + Z.of_nat (length comments))
                  (visited video comments w))
        as (c' & visits & Hret & Hpre & Hlog & Hids).
      { by rewrite visited_apiKey. }
      exists c', (video :: visits).
      split; [done |]. split; [by apply prefix_cons |].
      destruct (harvest_general yt rest (c + Z.of_nat (length comments))
                  (visited video comments w))
        as (_ & _ & _ & new & Hnew & _).
      rewrite (fetchedDuring_app _ _ _ Hnew) in Hlog.
      rewrite visited_fetches, <- app_assoc in Hnew.
      rewrite (fetchedDuring_app _ _ _ Hnew).
      rewrite Hids, visited_harvested. cbn. rewrite Hlog.
      split; [done |]. set_solver.
Qed.

(** *** A cycle *)

Lemma cycle_unfold yt w :
  updateMapFromYoutube yt w =
  match fetchTrendingVideos yt (apiKey (this w)) with
  | Returned videos =>
      match harvest yt (trendingBatch (harvestedYoutubeIDs (this w)) videos)
              0 w with
      | (Returned _, w1) => (Returned tt, snd (saveDataToStorage w1))
      | (Thrown e, w1) => (Thrown e, w1)
      end
  | Thrown e => (Thrown e, w)
  end.
Proof.
  unfold updateMapFromYoutube, bind, gets, lift, detached.
  destruct (fetchTrendingVideos yt (apiKey (this w))) as [videos | e];
    [| done].
  by destruct (harvest yt _ 0 w) as [[c | e] w1].
Qed.

Lemma update_fetches yt w :
  fetches (snd (updateMapFromYoutube yt w)) =
  match fetchTrendingVideos yt (apiKey (this w)) with
  | Returned videos =>
      fetches (snd (harvest yt
                      (trendingBatch (harvestedYoutubeIDs (this w)) videos)
                      0 w))
  | Thrown _ => fetches w
  end.
Proof.
  rewrite cycle_unfold.
  destruct (fetchTrendingVideos yt (apiKey (this w))) as [videos | e];
    [| done].
  destruct (harvest yt _ 0 w) as [[c | e] w1]; cbn [snd]; [| done].
  by rewrite saveData_fetches.
Qed.

(** *** The batch of a cycle *)

Lemma batch_meets_spec harvested videos :
  trendingBatch harvested videos =
  batchOfSpec MAX_VIDEOS_PER_UPDATE harvested videos.
Proof. apply batch_filter_take. Qed.

Lemma batch_properties harvested videos :
  trendingBatch harvested videos `sublist_of` videos ∧
  Z.of_nat (length (trendingBatch harvested videos)) <= MAX_VIDEOS_PER_UPDATE ∧
  Forall (fun video => video ∉ harvested) (trendingBatch harvested videos).
Proof. by apply batch_filter_take_properties. Qed.

(** The videos fetched during a cycle are the first ones of its batch. *)
Lemma cycle_visits_batch yt w videos :
  fetchTrendingVideos yt (apiKey (this w)) = Returned videos ->
  (videoId <$> fetchedDuring w (snd (updateMapFromYoutube yt w)))
    `prefix_of` trendingBatch (harvestedYoutubeIDs (this w)) videos.
Proof.
  intros Hvideos.
  pose proof (update_fetches yt w) as Hlog. rewrite Hvideos in Hlog.
  destruct (harvest_general yt
              (trendingBatch (harvestedYoutubeIDs (this w)) videos) 0 w)
    as (_ & _ & _ & new & Hnew & Hpre & _).
  rewrite Hnew in Hlog. by rewrite (fetchedDuring_app _ _ _ Hlog).
Qed.

(** *** The first video of a batch *)

Lemma visited_harvestedFirst video comments w :
  harvestedFirst CHAIN_LENGTH video comments
    (fetchedDuring w (visited video comments w))
    (harvestedYoutubeIDs (this (visited video comments w)))
    (map (this (visited video comments w))).
Proof.
  unfold harvestedFirst.
  rewrite (fetchedDuring_app _ _ _ (visited_fetches video comments w)).
  rewrite visited_harvested, visited_map.
  split; [done |]. split; [set_solver |].
  intros message window Hmsg Hwin. by eapply update_records.
Qed.

(** Whatever the running total is when the loop is entered, a video at
    the head of the list whose fetch answers goes through the whole
    loop body: the quota is looked at only afterwards. *)
Lemma harvest_first yt video rest comments c w :
  fetchAllCommentsForVideo yt video (apiKey (this w)) MAX_COMMENTS_PER_VIDEO =
    Returned comments ->
  let w' := snd (harvest yt (video :: rest) c w) in
  harvestedFirst CHAIN_LENGTH video comments (fetchedDuring w w')
    (harvestedYoutubeIDs (this w')) (map (this w')).
Proof.
  intros Hanswer. cbn zeta. rewrite harvest_cons, Hanswer. cbn zeta.
  pose proof (visited_harvestedFirst video comments w) as (Hhead & Hid & Hmap).
  destruct (_ >? _); cbn [snd]; [done |].
  destruct (harvest_general yt rest (c + Z.of_nat (length comments))
              (visited video comments w))
    as (_ & Hids & Hkeep & new & Hlog & _).
  rewrite visited_fetches, <- app_assoc in Hlog.
  unfold harvestedFirst. rewrite (fetchedDuring_app _ _ _ Hlog).
  split; [done |]. split; [set_solver |].
  intros message window Hmsg Hwin. apply Hkeep. by eapply Hmap.
Qed.

(** C10, as the code has it: in a harvest cycle whose filtered
    candidate list is not empty, the first video is asked for, whatever
    the quota. When the fetch answers, the video is fed into the map
    and marked as harvested; and the loop does the same for every value
    [c] of the running total at its entry, at or above the ceiling too,
    since the quota is checked only after the video has been
    processed. When the fetch is rejected, the cycle is rejected with
    it: the fetch is logged and the object and the disk are as they
    were, with no video harvested. *)
Theorem first_video_always_harvested yt w videos video rest c :
  fetchTrendingVideos yt (apiKey (this w)) = Returned videos ->
  trendingBatch (harvestedYoutubeIDs (this w)) videos = video :: rest ->
  let w1 := snd (updateMapFromYoutube yt w) in
  let w2 := snd (harvest yt (video :: rest) c w) in
  match fetchAllCommentsForVideo yt video (apiKey (this w))
          MAX_COMMENTS_PER_VIDEO with
  | Returned comments =>
      harvestedFirst CHAIN_LENGTH video comments (fetchedDuring w w1)
        (harvestedYoutubeIDs (this w1)) (map (this w1)) ∧
      harvestedFirst CHAIN_LENGTH video comments (fetchedDuring w w2)
        (harvestedYoutubeIDs (this w2)) (map (this w2))
  | Thrown e =>
      let rejected := log_fetch {| videoId := video; response := Thrown e |} w in
      updateMapFromYoutube yt w = (Thrown e, rejected) ∧
      harvest yt (video :: rest) c w = (Thrown e, rejected)
  end.
Proof.
  intros Hvideos Hbatch. cbn zeta.
  destruct (fetchAllCommentsForVideo yt video (apiKey (this w))
              MAX_COMMENTS_PER_VIDEO) as [comments | e] eqn:Hanswer.
  - split.
    + pose proof (harvest_first yt video rest comments 0 w Hanswer) as Hfirst.
      cbn zeta in Hfirst.
      unfold fetchedDuring in *. rewrite update_fetches, Hvideos, Hbatch.
      rewrite cycle_unfold, Hvideos, Hbatch.
      destruct (harvest yt (video :: rest) 0 w) as [[c0 | e] w1];
        cbn [snd] in *; [| done].
      by rewrite saveData_this.
    + by apply harvest_first.
  - rewrite cycle_unfold, Hvideos, Hbatch.
    by rewrite !harvest_cons, Hanswer.
Qed.

(** *** Writing when the storage is in place *)

Lemma writable_same_dirs d d' p :
  dirs d' = dirs d -> writable d' p = writable d p.
Proof. unfold writable, isDirectory. by intros ->. Qed.

Lemma storageReady_same w w' :
  sameConfig w w' -> dirs (disk w') = dirs (disk w) ->
  storageReady w -> storageReady w'.
Proof.
  unfold sameConfig, storageReady.
  intros (_ & -> & -> & ->) Hdirs (? & ? & ? & ?).
  by rewrite !(writable_same_dirs _ _ _ Hdirs).
Qed.

Lemma saveJSON_ready {T} (stringify : T -> string) obj p w :
  writable (disk w) p = true ->
  saveJSONToFile stringify obj p w =
  (Returned tt, set_disk (written (disk w) p (stringify obj)) w).
Proof.
  intros Hw. unfold saveJSONToFile, bind, gets, ret, onDisk.
  rewrite (writable_exists _ _ Hw). cbn [negb].
  by rewrite (writeFile_writable _ _ _ Hw).
Qed.

Lemma saveComments_ready comments w :
  writable (disk w) (pathToCommentStorage (this w)) = true ->
  saveCommentsToStorage comments w =
  (Returned tt,
   set_disk (written (disk w) (pathToCommentStorage (this w))
               (default "" (files (disk w) !! pathToCommentStorage (this w))
                +:+ join newline comments)) w).
Proof.
  intros Hw. unfold saveCommentsToStorage, bind, gets, ret, onDisk.
  rewrite (writable_exists _ _ Hw). cbn [negb].
  by rewrite (appendFile_writable _ _ _ Hw).
Qed.

Lemma saveData_ready w :
  storageReady w ->
  snd (saveDataToStorage w) =
  set_disk (written
              (written (disk w) (pathToVideosProcessedStorage (this w))
                 (stringify_ids (elements (harvestedYoutubeIDs (this w)))))
              (pathToMapStorage (this w))
              (stringify_map (map (this w)))) w.
Proof.
  intros (Hmap & Hids & _ & _). rewrite saveData_unfold. cbn [snd].
  rewrite (saveJSON_ready _ _ _ _ Hids). cbn [snd].
  by rewrite saveJSON_ready.
Qed.

Lemma saveData_keeps_ready w :
  storageReady w -> storageReady (snd (saveDataToStorage w)).
Proof.
  intros Hready. apply (storageReady_same w); [| | done].
  - apply saveData_sameConfig.
  - by rewrite saveData_ready.
Qed.

(** After a save the two files hold the state of the object. *)
Lemma saveData_stores w :
  storageReady w ->
  let w' := snd (saveDataToStorage w) in
  files (disk w') !! pathToMapStorage (this w') =
    Some (stringify_map (map (this w'))) ∧
  files (disk w') !! pathToVideosProcessedStorage (this w') =
    Some (stringify_ids (elements (harvestedYoutubeIDs (this w')))).
Proof.
  intros Hready. cbn zeta. rewrite saveData_this, saveData_ready by done.
  destruct Hready as (_ & _ & _ & Hne). cbn. split.
  - by rewrite lookup_insert_eq.
  - rewrite lookup_insert_ne by done. by rewrite lookup_insert_eq.
Qed.

Lemma visited_dirs video comments w :
  storageReady w -> dirs (disk (visited video comments w)) = dirs (disk w).
Proof.
  intros (_ & _ & Hcomments & _). unfold visited.
  by rewrite saveComments_ready.
Qed.

Lemma harvest_keeps_ready yt trending : forall c w,
  storageReady w -> storageReady (snd (harvest yt trending c w)).
Proof.
  induction trending as [| video rest IH]; intros c w Hready; [done |].
  rewrite harvest_cons.
  destruct (fetchAllCommentsForVideo yt video (apiKey (this w))
              MAX_COMMENTS_PER_VIDEO) as [comments | e]; [| done].
  cbn zeta. destruct (_ >? _); cbn [snd].
  - eapply storageReady_same;
      [apply visited_sameConfig | by apply visited_dirs | done].
  - apply IH. eapply storageReady_same;
      [apply visited_sameConfig | by apply visited_dirs | done].
Qed.

(** The loop writes to the comment log and to nothing else. *)
Lemma harvest_other_files yt trending : forall c w p,
  storageReady w ->
  p ≠ pathToCommentStorage (this w) ->
  files (disk (snd (harvest yt trending c w))) !! p = files (disk w) !! p.
Proof.
  induction trending as [| video rest IH]; intros c w p Hready Hp; [done |].
  rewrite harvest_cons.
  destruct (fetchAllCommentsForVideo yt video (apiKey (this w))
              MAX_COMMENTS_PER_VIDEO) as [comments | e]; [| done].
  assert (files (disk (visited video comments w)) !! p = files (disk w) !! p)
    as Hone.
  { destruct Hready as (_ & _ & Hcomments & _). unfold visited.
    rewrite saveComments_ready by done. cbn.
    by rewrite lookup_insert_ne. }
  cbn zeta. destruct (_ >? _); cbn [snd]; [done |].
  rewrite IH; [done | |].
  - eapply storageReady_same;
      [apply visited_sameConfig | by apply visited_dirs | done].
  - by destruct (visited_paths video comments w) as (_ & _ & ->).
Qed.

(** *** Persisting at the end of a cycle *)

(** A cycle in which no fetch is rejected returns, through the end of
    the list or through the quota check, and then the map file and the
    ID index hold the state of the object. *)
Lemma cycle_persists yt w videos :
  storageReady w ->
  fetchTrendingVideos yt (apiKey (this w)) = Returned videos ->
  Forall (fun video =>
            returned (fetchAllCommentsForVideo yt video (apiKey (this w))
                        MAX_COMMENTS_PER_VIDEO) = true)
         (trendingBatch (harvestedYoutubeIDs (this w)) videos) ->
  let r := updateMapFromYoutube yt w in
  fst r = Returned tt ∧
  files (disk (snd r)) !! pathToMapStorage (this (snd r)) =
    Some (stringify_map (map (this (snd r)))) ∧
  files (disk (snd r)) !! pathToVideosProcessedStorage (this (snd r)) =
    Some (stringify_ids (elements (harvestedYoutubeIDs (this (snd r))))).
Proof.
  intros Hready Hvideos Hok. cbn zeta. rewrite cycle_unfold, Hvideos.
  destruct (harvest_success yt _ 0 w Hok) as (c' & visits & Hret & _).
  pose proof (harvest_keeps_ready yt
                (trendingBatch (harvestedYoutubeIDs (this w)) videos) 0 w
                Hready) as Hready'.
  destruct (harvest yt _ 0 w) as [[c | e] w1]; cbn [fst snd] in *; [| done].
  split; [done |]. by apply saveData_stores.
Qed.

(** A rejected fetch ends the cycle where it is: the call is rejected
    and the save at the end of [updateMapFromYoutube] is not reached. *)
Lemma cycle_rejected yt w videos e :
  fetchTrendingVideos yt (apiKey (this w)) = Returned videos ->
  fst (harvest yt (trendingBatch (harvestedYoutubeIDs (this w)) videos) 0 w)
    = Thrown e ->
  updateMapFromYoutube yt w =
  (Thrown e,
   snd (harvest yt (trendingBatch (harvestedYoutubeIDs (this w)) videos) 0 w)).
Proof.
  intros Hvideos Hthrown. rewrite cycle_unfold, Hvideos.
  destruct (harvest yt _ 0 w) as [[c | e'] w1]; cbn [fst snd] in *;
    congruence.
Qed.

Lemma harvest_rejected_first yt video rest c w e :
  fetchAllCommentsForVideo yt video (apiKey (this w)) MAX_COMMENTS_PER_VIDEO =
    Thrown e ->
  harvest yt (video :: rest) c w =
  (Thrown e, log_fetch {| videoId := video; response := Thrown e |} w).
Proof. intros Hanswer. by rewrite harvest_cons, Hanswer. Qed.

(** *** Start-up *)

Lemma loadJSON_stored {T} (parse : string -> option T) p w :
  loadJSONFromFile parse p w = (Returned (stored parse (disk w) p), w).
Proof.
  unfold loadJSONFromFile, stored, try_catch, bind, fromDisk, ret, throw.
  destruct (readFile (disk w) p) as [json | e]; [| done].
  by destruct (parse json).
Qed.

Lemma loadFile_read p w :
  loadFile p w =
  (Returned match readFile (disk w) p with
            | Returned contents => Some contents
            | Thrown _ => None
            end, w).
Proof.
  unfold loadFile, try_catch, bind, fromDisk, ret.
  by destruct (readFile (disk w) p).
Qed.

Lemma initialise_unfold w :
  initialise w =
  match stored parse_ids (disk w) (pathToVideosProcessedStorage (this w)) with
  | Some NotIterable => (Thrown TypeError, w)
  | _ =>
      match stored parse_map (disk w) (pathToMapStorage (this w)) with
      | Some m => (Returned tt, set_map m (idsLoaded w))
      | None =>
          match readFile (disk w) (pathToCommentStorage (this w)) with
          | Returned text =>
              (Returned tt,
               snd (saveDataToStorage
                      (set_map (updateDictionaryFromInput text
                                  (createDictionaryFromInput "" CHAIN_LENGTH)
                                  CHAIN_LENGTH)
                         (idsLoaded w))))
          | Thrown _ =>
              (Returned tt,
               set_map (createDictionaryFromInput "" CHAIN_LENGTH) (idsLoaded w))
          end
      end
  end.
Proof.
  unfold initialise, loadDataFromStorage, idsLoaded, loadJSONFromFile,
    loadFile, stored, new_Set, try_catch, bind, gets, modify, lift, ret,
    throw, fromDisk.
  repeat (cbn [disk this map set_map set_harvestedYoutubeIDs fst snd
               pathToMapStorage pathToCommentStorage
               pathToVideosProcessedStorage];
          first [ done | by rewrite saveData_unfold | case_match; simplify_eq ]).
Qed.

(** C5, as the code has it: [initialise] is rejected on exactly one
    kind of disk, the one whose ID index parses to a value that
    [new Set] cannot iterate: the [TypeError] is thrown outside every
    [try], before the map is assigned, and the object and the disk are
    as they were. On every other disk, whatever is missing or
    unreadable, [initialise] returns: the harvested IDs are the stored
    ones or stay as they were; the map is the stored map, or else the
    map of the corpus log recorded into a fresh map, or else, without a
    corpus log, the fresh map of the empty text. *)
Theorem initialise_rejects_on_misshapen_index_only w :
  match stored parse_ids (disk w) (pathToVideosProcessedStorage (this w)) with
  | Some NotIterable => initialise w = (Thrown TypeError, w)
  | ids =>
      fst (initialise w) = Returned tt ∧
      harvestedYoutubeIDs (this (snd (initialise w))) =
        match ids with
        | Some (IdArray ids) => list_to_set ids
        | _ => harvestedYoutubeIDs (this w)
        end ∧
      map (this (snd (initialise w))) =
        match stored parse_map (disk w) (pathToMapStorage (this w)) with
        | Some m => m
        | None =>
            match readFile (disk w) (pathToCommentStorage (this w)) with
            | Returned text =>
                updateDictionaryFromInput text
                  (createDictionaryFromInput "" CHAIN_LENGTH) CHAIN_LENGTH
            | Thrown _ => createDictionaryFromInput "" CHAIN_LENGTH
            end
        end
  end.
Proof.
  rewrite initialise_unfold. unfold idsLoaded.
  destruct (stored parse_ids (disk w) _) as [[ids |] |]; [| done |];
    (destruct (stored parse_map (disk w) _) as [m |];
     [| destruct (readFile (disk w) _) as [text | e] ];
     cbn [fst snd]; rewrite ?saveData_this; done).
Qed.

Lemma idsLoaded_sameConfig w : sameConfig w (idsLoaded w).
Proof. unfold idsLoaded. destruct (stored _ _ _) as [[] |]; by repeat split. Qed.

Lemma idsLoaded_disk w : disk (idsLoaded w) = disk w.
Proof. unfold idsLoaded. by destruct (stored _ _ _) as [[] |]. Qed.

Lemma idsLoaded_fetches w : fetches (idsLoaded w) = fetches w.
Proof. unfold idsLoaded. by destruct (stored _ _ _) as [[] |]. Qed.

Lemma set_map_ready m w : storageReady w -> storageReady (set_map m w).
Proof. done. Qed.

Lemma idsLoaded_ready w : storageReady w -> storageReady (idsLoaded w).
Proof.
  apply storageReady_same; [apply idsLoaded_sameConfig |].
  by rewrite idsLoaded_disk.
Qed.


(** *** Many cycles and restarts *)

Section Runs.
(** What is written as an array of IDs is read back as that array. *)
Hypothesis ids_round_trip :
  forall ids, parse_ids (stringify_ids ids) = Some (IdArray ids).

Lemma storedIds_after_save w :
  storageReady w ->
  storedIds (snd (saveDataToStorage w)) = harvestedYoutubeIDs (this w).
Proof.
  intros Hready. unfold storedIds, stored.
  rewrite saveData_this, saveData_ready by done.
  destruct Hready as (_ & Hids & _ & Hne).
  rewrite readFile_writable by done. cbn.
  rewrite lookup_insert_ne by done. rewrite lookup_insert_eq.
  rewrite ids_round_trip. apply list_to_set_elements_L.
Qed.

Lemma loaded_steady key w m :
  apiKey (this w) = key ->
  storageReady w ->
  NoDup (videoId <$> fetches w) ->
  (forall video, video ∈ videoId <$> fetches w -> video ∈ storedIds w) ->
  steady key (set_map m (idsLoaded w)).
Proof.
  intros Hkey Hready Hnodup Hstored.
  pose proof (idsLoaded_sameConfig w) as (Hk & _ & Hp & _).
  split; [cbn; congruence |].
  split; [by apply set_map_ready, idsLoaded_ready |].
  cbn [fetches set_map]. rewrite idsLoaded_fetches. split; [done |].
  intros video Hin. specialize (Hstored video Hin).
  unfold storedIds in *. cbn [this disk set_map pathToVideosProcessedStorage].
  rewrite Hp, idsLoaded_disk. split; [| done].
  unfold idsLoaded.
  destruct (stored parse_ids (disk w) _) as [[ids |] |]; [done | |];
    by apply not_elem_of_empty in Hstored.
Qed.

(** A save brings the index on disk up to the harvested set. *)
Lemma steady_save key w :
  apiKey (this w) = key ->
  storageReady w ->
  NoDup (videoId <$> fetches w) ->
  (forall video, video ∈ videoId <$> fetches w ->
     video ∈ harvestedYoutubeIDs (this w)) ->
  steady key (snd (saveDataToStorage w)).
Proof.
  intros Hkey Hready Hnodup Hin.
  split; [by rewrite saveData_this |].
  split; [by apply saveData_keeps_ready |].
  rewrite saveData_fetches. split; [done |].
  intros video Hvideo. rewrite saveData_this, storedIds_after_save by done.
  split; by apply Hin.
Qed.

(** Start-up keeps the invariant, from any object on a disk whose
    index covers the fetches made so far. *)
Lemma steady_initialise key w :
  apiKey (this w) = key ->
  storageReady w ->
  NoDup (videoId <$> fetches w) ->
  (forall video, video ∈ videoId <$> fetches w -> video ∈ storedIds w) ->
  steady key (snd (initialise w)).
Proof.
  intros Hkey Hready Hnodup Hstored. rewrite initialise_unfold.
  destruct (stored parse_ids (disk w) _) as [[ids |] |] eqn:Hindex;
    [| | ]; cycle 1.
  { cbn [snd]. repeat (split; [done |]). intros video Hin.
    specialize (Hstored video Hin). unfold storedIds in Hstored.
    rewrite Hindex in Hstored. by apply not_elem_of_empty in Hstored. }
  all: destruct (stored parse_map (disk w) _) as [m |];
    [| destruct (readFile (disk w) _) as [text | e] ]; cbn [snd].
  all: try by apply loaded_steady.
  all: destruct (loaded_steady key w
                (updateDictionaryFromInput text
                   (createDictionaryFromInput "" CHAIN_LENGTH) CHAIN_LENGTH)
                Hkey Hready Hnodup Hstored) as (? & ? & ? & Hin);
    apply steady_save; try done; intros video Hvideo;
    by destruct (Hin video Hvideo).
Qed.

Lemma world_boot key pMap pIds pComments d log :
  world (boot key pMap pIds pComments d log) =
  snd (initialise {| this := construct key pMap pIds pComments;
                     disk := d; fetches := log |}).
Proof. unfold boot. by destruct (initialise _) as [[] ?]. Qed.

Lemma steady_restart key p :
  steady key (world p) -> steady key (world (step p Restart)).
Proof.
  intros (Hkey & Hready & Hnodup & Hin). cbn [step]. rewrite world_boot.
  apply steady_initialise; cbn; try done.
  intros video Hvideo. by destruct (Hin video Hvideo).
Qed.


Lemma smooth_batch key yt harvested videos :
  fetchTrendingVideos yt key = Returned videos ->
  smoothCycle key yt = true ->
  NoDup (trendingBatch harvested videos) ∧
  Forall (fun video =>
            returned (fetchAllCommentsForVideo yt video key
                        MAX_COMMENTS_PER_VIDEO) = true)
         (trendingBatch harvested videos).
Proof.
  unfold smoothCycle. intros -> [Hnodup Hall]%andb_prop.
  apply bool_decide_eq_true in Hnodup.
  destruct (batch_properties harvested videos) as (Hsub & _ & _).
  split; [by eapply sublist_NoDup |].
  rewrite forallb_forall in Hall. apply Forall_forall. intros video Hin.
  apply Hall, list_elem_of_In. by eapply elem_of_sublist.
Qed.

(** A smooth cycle keeps the invariant: what it fetches is new, and it
    leaves it in the harvested set and in the index. *)
Lemma steady_cycle key yt p :
  steady key (world p) -> smoothCycle key yt = true ->
  steady key (world (step p (Cycle yt))).
Proof.
  destruct p as [w | w]; [| done].
  intros (Hkey & Hready & Hnodup & Hin) Hsmooth. cbn [step world] in *.
  rewrite cycle_unfold, Hkey.
  destruct (fetchTrendingVideos yt key) as [videos | e] eqn:Hvideos;
    [| exact (conj Hkey (conj Hready (conj Hnodup Hin)))].
  destruct (smooth_batch key yt (harvestedYoutubeIDs (this w)) videos
              Hvideos Hsmooth) as [Hbatch Hok].
  rewrite <- Hkey in Hok.
  destruct (harvest_success yt _ 0 w Hok)
    as (c' & visits & Hret & Hpre & Hlog & Hids).
  destruct (harvest_general yt
              (trendingBatch (harvestedYoutubeIDs (this w)) videos) 0 w)
    as ((Hk & _) & _ & _ & new & Hnew & _).
  pose proof (harvest_keeps_ready yt
                (trendingBatch (harvestedYoutubeIDs (this w)) videos) 0 w
                Hready) as Hready'.
  rewrite (fetchedDuring_app _ _ _ Hnew) in Hlog.
  destruct (harvest yt _ 0 w) as [[c | e] w1]; cbn [fst snd] in *; [| done].
  destruct (batch_properties (harvestedYoutubeIDs (this w)) videos)
    as (_ & _ & Hfresh).
  assert (forall video, video ∈ visits ->
            video ∉ harvestedYoutubeIDs (this w)) as Hvisits.
  { intros video Hv. rewrite Forall_forall in Hfresh. apply Hfresh.
    destruct Hpre as [rest ->]. apply elem_of_app. by left. }
  apply steady_save; [congruence | done | |].
  - rewrite Hnew, fmap_app, Hlog. apply NoDup_app. split; [done |]. split.
    + intros video Hold Hv. apply (Hvisits video Hv). by apply Hin.
    + destruct Hpre as [rest Hrest]. rewrite Hrest in Hbatch.
      by apply NoDup_app in Hbatch as [? _].
  - rewrite Hnew, fmap_app, Hlog, Hids.
    intros video [Hold | Hv]%elem_of_app.
    + apply elem_of_union. right. by apply Hin.
    + apply elem_of_union. left. by apply elem_of_list_to_set.
Qed.

Lemma steady_step key p e :
  steady key (world p) -> smoothEvent key e = true ->
  steady key (world (step p e)).
Proof.
  destruct e as [yt |]; intros Hsteady Hsmooth.
  - by apply steady_cycle.
  - by apply steady_restart.
Qed.

Lemma steady_run key events : forall p,
  steady key (world p) -> forallb (smoothEvent key) events = true ->
  steady key (world (run events p)).
Proof.
  induction events as [| e events IH]; intros p Hsteady Hsmooth; [done |].
  cbn in Hsmooth. apply andb_prop in Hsmooth as [He Hrest].
  cbn. apply IH; [| done]. by apply steady_step.
Qed.

(** C2, as the code has it: in a process whose storage is in place,
    through any sequence of cycles and restarts in which no trending
    list names a video twice and no comment fetch is rejected, no video
    is fetched twice: every fetched video is in the harvested set,
    which the next cycles filter out of their candidates, and in the
    index on disk, from which a restart loads the set again. *)
Theorem no_video_fetched_twice key pMap pIds pComments d events :
  storageReady {| this := construct key pMap pIds pComments;
                  disk := d; fetches := [] |} ->
  forallb (smoothEvent key) events = true ->
  let w := world (run events (boot key pMap pIds pComments d [])) in
  NoDup (videoId <$> fetches w) ∧
  forall video, video ∈ videoId <$> fetches w ->
    video ∈ harvestedYoutubeIDs (this w) ∧ video ∈ storedIds w.
Proof.
  intros Hready Hsmooth. cbn zeta.
  assert (steady key (world (boot key pMap pIds pComments d []))) as Hboot.
  { rewrite world_boot.
    apply steady_initialise; cbn [this apiKey fetches construct];
      try done.
    - constructor.
    - intros video Hin. by apply elem_of_nil in Hin. }
  by destruct (steady_run key events _ Hboot Hsmooth) as (_ & _ & ? & ?).
Qed.

End Runs.

(** *** Directories *)

(** The first write below a missing folder creates the folder when the
    folder above it is there. *)
Lemma saveJSON_creates_folder {T} (stringify : T -> string) obj p w :
  existsSync (disk w) (dirname p) = false ->
  isDirectory (disk w) (dirname (dirname p)) = true ->
  p ≠ dirname p ->
  isDirectory (disk w) p = false ->
  saveJSONToFile stringify obj p w =
  (Returned tt,
   set_disk {| dirs := {[dirname p]} ∪ dirs (disk w);
               files := <[p := stringify obj]> (files (disk w)) |} w).
Proof.
  intros Hmissing Hparent Hne Hfile.
  unfold saveJSONToFile, bind, gets, ret, onDisk.
  rewrite Hmissing. cbn [negb]. unfold mkdirSync.
  rewrite Hmissing, Hparent. cbn [disk set_disk].
  unfold writeFile.
  assert (isDirectory {| dirs := {[dirname p]} ∪ dirs (disk w);
                         files := files (disk w) |} p = false) as ->.
  { unfold isDirectory in *. apply bool_decide_eq_false.
    apply bool_decide_eq_false in Hfile. cbn. set_solver. }
  assert (isDirectory {| dirs := {[dirname p]} ∪ dirs (disk w);
                         files := files (disk w) |} (dirname p) = true) as ->.
  { unfold isDirectory. apply bool_decide_eq_true. cbn. set_solver. }
  done.
Qed.

(** Below two missing levels nothing is created and nothing is written:
    [mkdirSync] throws and [writeFile] is not reached. *)
Lemma saveJSON_nested_folder_fails {T} (stringify : T -> string) obj p w :
  existsSync (disk w) (dirname p) = false ->
  isDirectory (disk w) (dirname (dirname p)) = false ->
  saveJSONToFile stringify obj p w = (Thrown ENOENT, w).
Proof.
  intros Hmissing Hparent.
  unfold saveJSONToFile, bind, gets, ret, onDisk.
  rewrite Hmissing. cbn [negb]. unfold mkdirSync.
  by rewrite Hmissing, Hparent.
Qed.

Lemma saveComments_nested_folder_fails comments w :
  existsSync (disk w) (dirname (pathToCommentStorage (this w))) = false ->
  isDirectory (disk w) (dirname (dirname (pathToCommentStorage (this w))))
    = false ->
  saveCommentsToStorage comments w = (Thrown ENOENT, w).
Proof.
  intros Hmissing Hparent.
  unfold saveCommentsToStorage, bind, gets, ret, onDisk.
  rewrite Hmissing. cbn [negb]. unfold mkdirSync.
  by rewrite Hmissing, Hparent.
Qed.

(** *** The quota *)

Lemma commentsIn_cons f log :
  commentsIn (f :: log) = commentsOf f + commentsIn log.
Proof. reflexivity. Qed.

Lemma commentsIn_app log1 log2 :
  commentsIn (log1 ++ log2) = commentsIn log1 + commentsIn log2.
Proof.
  unfold commentsIn. induction log1 as [| f log1 IH]; cbn; [done |].
  rewrite IH. lia.
Qed.

(** While the loop runs, the running total leaves room for one more
    video; so whatever is fetched stays under the ceiling. *)
Lemma harvest_quota yt trending : forall c w,
  respectsLimit yt (apiKey (this w)) MAX_COMMENTS_PER_VIDEO ->
  c + MAX_COMMENTS_PER_VIDEO <= MAX_COMMENTS_PER_DAY ->
  exists new,
    fetches (snd (harvest yt trending c w)) = (fetches w ++ new)%list ∧
    c + commentsIn new <= MAX_COMMENTS_PER_DAY.
Proof.
  induction trending as [| video rest IH]; intros c w Hlimit Hroom.
  - exists []. cbn. rewrite app_nil_r. split; [done |].
    unfold MAX_COMMENTS_PER_VIDEO in Hroom. lia.
  - rewrite harvest_cons.
    destruct (fetchAllCommentsForVideo yt video (apiKey (this w))
                MAX_COMMENTS_PER_VIDEO) as [comments | e] eqn:Hanswer.
    + pose proof (Hlimit _ _ Hanswer) as Hlen. cbn zeta.
      destruct (Z.gtb_spec (c + Z.of_nat (length comments) + MAX_COMMENTS_PER_VIDEO)
                  MAX_COMMENTS_PER_DAY) as [Hfull | Hfull].
      * eexists [_]. cbn. rewrite visited_fetches. split; [done |].
        unfold commentsOf. cbn. lia.
      * destruct (IH (c + Z.of_nat (length comments))
                    (visited video comments w)) as (new & Hlog & Hsum).
        { by rewrite visited_apiKey. }
        { lia. }
        exists ({| videoId := video; response := Returned comments |} :: new).
        rewrite Hlog, visited_fetches, <- app_assoc. split; [done |].
        rewrite commentsIn_cons. unfold commentsOf at 1. cbn [response]. lia.
    + eexists [_]. cbn. split; [done |].
      unfold commentsOf. cbn. unfold MAX_COMMENTS_PER_VIDEO in Hroom. lia.
Qed.

Lemma commentsIn_nonneg log : 0 <= commentsIn log.
Proof.
  induction log as [| f log IH]; [done |].
  rewrite commentsIn_cons. unfold commentsOf.
  destruct (response f); lia.
Qed.

Lemma endsRejected_cons f log : endsRejected log -> endsRejected (f :: log).
Proof.
  intros (g & Hlast & Hg). exists g. split; [| done].
  rewrite last_cons. by rewrite Hlast.
Qed.

(** The loop goes through the whole list it is given, unless a fetch is
    rejected, which ends it there, or the quota check leaves it. *)
Lemma harvest_through yt trending : forall c w,
  exists new,
    fetches (snd (harvest yt trending c w)) = (fetches w ++ new)%list ∧
    (videoId <$> new = trending ∨
     endsRejected new ∨
     MAX_COMMENTS_PER_DAY < c + commentsIn new + MAX_COMMENTS_PER_VIDEO).
Proof.
  induction trending as [| video rest IH]; intros c w.
  - exists []. cbn. rewrite app_nil_r. split; [done |]. by left.
  - rewrite harvest_cons.
    destruct (fetchAllCommentsForVideo yt video (apiKey (this w))
                MAX_COMMENTS_PER_VIDEO) as [comments | e].
    + cbn zeta.
      destruct (Z.gtb_spec (c + Z.of_nat (length comments) + MAX_COMMENTS_PER_VIDEO)
                  MAX_COMMENTS_PER_DAY) as [Hfull | Hfull].
      * eexists [_]. cbn [snd]. rewrite visited_fetches. split; [done |].
        right. right. rewrite commentsIn_cons. unfold commentsOf at 1.
        cbn [response commentsIn foldr]. lia.
      * destruct (IH (c + Z.of_nat (length comments))
                    (visited video comments w)) as (new & Hlog & Hend).
        exists ({| videoId := video; response := Returned comments |} :: new).
        rewrite Hlog, visited_fetches, <- app_assoc. split; [done |].
        destruct Hend as [Hall | [Hrejected | Hquota]].
        -- left. cbn. by rewrite Hall.
        -- right. left. by apply endsRejected_cons.
        -- right. right. rewrite commentsIn_cons. unfold commentsOf at 1.
           cbn [response]. lia.
    + eexists [_]. cbn [snd log_fetch fetches]. split; [done |].
      right. left. by eexists.
Qed.

(** A cycle fetches its whole batch, unless a fetch is rejected or the
    quota check leaves the loop. *)
Lemma cycle_through yt w videos :
  fetchTrendingVideos yt (apiKey (this w)) = Returned videos ->
  let new := fetchedDuring w (snd (updateMapFromYoutube yt w)) in
  videoId <$> new = trendingBatch (harvestedYoutubeIDs (this w)) videos ∨
  endsRejected new ∨
  MAX_COMMENTS_PER_DAY < commentsIn new + MAX_COMMENTS_PER_VIDEO.
Proof.
  intros Hvideos. cbn zeta.
  pose proof (update_fetches yt w) as Hlog. rewrite Hvideos in Hlog.
  destruct (harvest_through yt
              (trendingBatch (harvestedYoutubeIDs (this w)) videos) 0 w)
    as (new & Hnew & Hend).
  rewrite Hnew in Hlog. by rewrite (fetchedDuring_app _ _ _ Hlog).
Qed.

(** Without a limit on the collaborator there is no bound: whatever
    the first fetch of a cycle brings is fetched. *)
Lemma first_answer_counts yt w videos video rest comments :
  fetchTrendingVideos yt (apiKey (this w)) = Returned videos ->
  trendingBatch (harvestedYoutubeIDs (this w)) videos = video :: rest ->
  fetchAllCommentsForVideo yt video (apiKey (this w)) MAX_COMMENTS_PER_VIDEO =
    Returned comments ->
  Z.of_nat (length comments) <=
    commentsIn (fetchedDuring w (snd (updateMapFromYoutube yt w))).
Proof.
  intros Hvideos Hbatch Hanswer.
  unfold fetchedDuring. rewrite update_fetches, Hvideos, Hbatch.
  pose proof (harvest_first yt video rest comments 0 w Hanswer) as [Hhead _].
  cbn zeta in Hhead. unfold fetchedDuring in Hhead.
  destruct (drop _ _) as [| f log]; [done |].
  injection Hhead as ->. rewrite commentsIn_cons. unfold commentsOf at 1.
  cbn [response]. pose proof (commentsIn_nonneg log). lia.
Qed.

(** The ceiling is never passed when the collaborator keeps to its
    maximum. *)
Lemma cycle_under_ceiling yt w :
  respectsLimit yt (apiKey (this w)) MAX_COMMENTS_PER_VIDEO ->
  let w' := snd (updateMapFromYoutube yt w) in
  fetches w' = (fetches w ++ fetchedDuring w w')%list ∧
  commentsIn (fetchedDuring w w') <= MAX_COMMENTS_PER_DAY.
Proof.
  intros Hlimit w'. subst w'.
  assert (exists new,
    fetches (snd (updateMapFromYoutube yt w)) = (fetches w ++ new)%list ∧
    commentsIn new <= MAX_COMMENTS_PER_DAY) as (new & Hlog & Hsum).
  { rewrite update_fetches.
    destruct (fetchTrendingVideos yt (apiKey (this w))) as [videos | e].
    - destruct (harvest_quota yt
                  (trendingBatch (harvestedYoutubeIDs (this w)) videos) 0 w
                  Hlimit) as (new & Hlog & Hsum); [by vm_compute |].
      exists new. split; [done | lia].
    - exists []. rewrite app_nil_r. split; [done | by vm_compute]. }
  by rewrite (fetchedDuring_app _ _ _ Hlog).
Qed.

(** C1: in every harvest cycle, whatever list of videos is discovered
    and however many comments each fetch brings within the maximum it
    is called with, the comments fetched during the cycle do not exceed
    the ceiling [(MAX_QUOTA_PER_DAY / QUOTA_COST_PER_FETCH) *
    COMMENTS_PER_BATCH] by more than [MAX_COMMENTS_PER_VIDEO]. *)
Theorem quota_ceiling_respected yt w :
  respectsLimit yt (apiKey (this w)) MAX_COMMENTS_PER_VIDEO ->
  let w' := snd (updateMapFromYoutube yt w) in
  fetches w' = (fetches w ++ fetchedDuring w w')%list ∧
  commentsIn (fetchedDuring w w') <=
    (MAX_QUOTA_PER_DAY / QUOTA_COST_PER_FETCH) * COMMENTS_PER_BATCH
    + MAX_COMMENTS_PER_VIDEO.
Proof.
  intros Hlimit w'.
  destruct (cycle_under_ceiling yt w Hlimit) as [Hlog Hsum].
  split; [done |].
  fold MAX_COMMENTS_PER_DAY. fold w' in Hsum.
  unfold MAX_COMMENTS_PER_VIDEO. lia.
Qed.

End Facts.
End SplitFacts.

(** ** The legacy layout *)

Module LegacyFacts.
Import Legacy.

Section Facts.
Context `{Library} `{Json}.

Lemma legacy_harvest_cons yt video rest c w :
  harvest yt (video :: rest) c w =
  match fetchAllCommentsForVideo yt video (apiKey (this w))
          MAX_COMMENTS_PER_VIDEO with
  | Thrown e =>
      (Thrown e, log_fetch {| videoId := video; response := Thrown e |} w)
  | Returned comments =>
      let c' := c + Z.of_nat (length comments) in
      if c' + MAX_COMMENTS_PER_VIDEO >? MAX_COMMENTS_PER_DAY
      then (Returned c', visited video comments w)
      else harvest yt rest c' (visited video comments w)
  end.
Proof.
  cbn [harvest]. unfold visited, bind, gets, modify, lift, ret.
  destruct (fetchAllCommentsForVideo yt video (apiKey (this w))
              MAX_COMMENTS_PER_VIDEO) as [comments | e]; cbn; [| done].
  by destruct (_ >? _).
Qed.

Lemma legacy_fetchedDuring_app w w' new :
  fetches w' = (fetches w ++ new)%list -> fetchedDuring w w' = new.
Proof. unfold fetchedDuring. intros ->. by rewrite drop_app_length. Qed.

(** The loop leaves the disk and the configuration alone and logs
    fetches for a prefix of the videos it was given. *)
Lemma legacy_harvest_frame yt trending : forall c w,
  let w' := snd (harvest yt trending c w) in
  disk w' = disk w ∧
  apiKey (this w') = apiKey (this w) ∧
  pathToFile (this w') = pathToFile (this w) ∧
  exists new,
    fetches w' = (fetches w ++ new)%list ∧
    (videoId <$> new) `prefix_of` trending.
Proof.
  induction trending as [| video rest IH]; intros c w; cbn zeta.
  - cbn. repeat split. exists []. by rewrite app_nil_r.
  - rewrite legacy_harvest_cons.
    destruct (fetchAllCommentsForVideo yt video (apiKey (this w))
                MAX_COMMENTS_PER_VIDEO) as [comments | e].
    + cbn zeta. destruct (_ >? _).
      * cbn. repeat split. eexists [_]. split; [done |].
        apply prefix_cons, prefix_nil.
      * destruct (IH (c + Z.of_nat (length comments))
                    (visited video comments w))
          as (Hdisk & Hkey & Hpath & new & Hlog & Hpre).
        repeat split; [done .. |].
        exists ({| videoId := video; response := Returned comments |} :: new).
        rewrite Hlog. cbn. rewrite <- app_assoc. split; [done |].
        by apply prefix_cons.
    + cbn. repeat split. eexists [_]. split; [done |].
      apply prefix_cons, prefix_nil.
Qed.

Lemma legacy_harvest_success yt trending : forall c w,
  Forall (fun video =>
            returned (fetchAllCommentsForVideo yt video (apiKey (this w))
                        MAX_COMMENTS_PER_VIDEO) = true) trending ->
  exists c', fst (harvest yt trending c w) = Returned c'.
Proof.
  induction trending as [| video rest IH]; intros c w Hok.
  - by exists c.
  - apply Forall_cons in Hok as [Hvideo Hrest]. rewrite legacy_harvest_cons.
    destruct (fetchAllCommentsForVideo yt video (apiKey (this w))
                MAX_COMMENTS_PER_VIDEO) as [comments | e]; [| done].
    cbn zeta. destruct (_ >? _); [by eexists |].
    by apply IH.
Qed.

Lemma legacy_cycle_unfold yt w :
  updateMapFromYoutube yt w =
  match fetchTrendingVideos yt (apiKey (this w)) with
  | Returned videos =>
      match harvest yt (trendingBatch (harvestedYoutubeIDs (this w)) videos)
              0 w with
      | (Returned _, w1) => (Returned tt, snd (saveMapToStorage w1))
      | (Thrown e, w1) => (Thrown e, w1)
      end
  | Thrown e => (Thrown e, w)
  end.
Proof.
  unfold updateMapFromYoutube, bind, gets, lift, detached.
  destruct (fetchTrendingVideos yt (apiKey (this w))) as [videos | e];
    [| done].
  by destruct (harvest yt _ 0 w) as [[c | e] w1].
Qed.

Lemma saveMap_this w : this (snd (saveMapToStorage w)) = this w.
Proof.
  unfold saveMapToStorage, bind, gets, ret, onDisk.
  repeat (case_match; cbn in *; simplify_eq); done.
Qed.

Lemma saveMap_fetches w : fetches (snd (saveMapToStorage w)) = fetches w.
Proof.
  unfold saveMapToStorage, bind, gets, ret, onDisk.
  repeat (case_match; cbn in *; simplify_eq); done.
Qed.

Lemma saveMap_ready w :
  writable (disk w) (pathToFile (this w)) = true ->
  saveMapToStorage w =
  (Returned tt,
   set_disk (written (disk w) (pathToFile (this w))
               (stringify_structure
                  (map (this w), elements (harvestedYoutubeIDs (this w))))) w).
Proof.
  intros Hw. unfold saveMapToStorage, bind, gets, ret, onDisk.
  rewrite (writable_exists _ _ Hw). cbn [negb].
  by rewrite (writeFile_writable _ _ _ Hw).
Qed.

Lemma saveMap_nested_folder_fails w :
  existsSync (disk w) (dirname (pathToFile (this w))) = false ->
  isDirectory (disk w) (dirname (dirname (pathToFile (this w)))) = false ->
  saveMapToStorage w = (Thrown ENOENT, w).
Proof.
  intros Hmissing Hparent.
  unfold saveMapToStorage, bind, gets, ret, onDisk.
  rewrite Hmissing. cbn [negb]. unfold mkdirSync.
  by rewrite Hmissing, Hparent.
Qed.

(** Start-up of the legacy layout catches whatever the loading throws,
    and keeps what was assigned before the throw. *)
Lemma legacy_initialise_unfold w :
  initialise w =
  (Returned tt,
   match stored parse_structure (disk w) (pathToFile (this w)) with
   | Some (Some m, IdArray ids) =>
       set_harvestedYoutubeIDs (list_to_set ids) (set_map m w)
   | Some (None, IdArray ids) =>
       set_map (createDictionaryFromInput "" CHAIN_LENGTH)
         (set_harvestedYoutubeIDs (list_to_set ids) w)
   | _ => set_map (createDictionaryFromInput "" CHAIN_LENGTH) w
   end).
Proof.
  unfold initialise, loadMapFromStorage, stored, new_Set, try_catch, bind,
    gets, fromDisk, modify, lift, ret, throw.
  destruct (readFile (disk w) (pathToFile (this w))) as [json | e];
    [| done].
  by destruct (parse_structure json) as [[[m |] [ids |]] |].
Qed.

Lemma legacy_batch_meets_spec harvested videos :
  trendingBatch harvested videos =
  batchOfSpec MAX_VIDEOS_PER_UPDATE harvested videos.
Proof. apply batch_filter_take. Qed.

Lemma legacy_batch_properties harvested videos :
  trendingBatch harvested videos `sublist_of` videos ∧
  Z.of_nat (length (trendingBatch harvested videos)) <= MAX_VIDEOS_PER_UPDATE ∧
  Forall (fun video => video ∉ harvested) (trendingBatch harvested videos).
Proof. by apply batch_filter_take_properties. Qed.

Lemma legacy_cycle_visits_batch yt w videos :
  fetchTrendingVideos yt (apiKey (this w)) = Returned videos ->
  (videoId <$> fetchedDuring w (snd (updateMapFromYoutube yt w)))
    `prefix_of` trendingBatch (harvestedYoutubeIDs (this w)) videos.
Proof.
  intros Hvideos. rewrite legacy_cycle_unfold, Hvideos.
  destruct (legacy_harvest_frame yt
              (trendingBatch (harvestedYoutubeIDs (this w)) videos) 0 w)
    as (_ & _ & _ & new & Hnew & Hpre).
  destruct (harvest yt _ 0 w) as [[c | e] w1]; cbn [snd] in *.
  - rewrite <- saveMap_fetches in Hnew.
    by rewrite (legacy_fetchedDuring_app _ _ _ Hnew).
  - by rewrite (legacy_fetchedDuring_app _ _ _ Hnew).
Qed.

(** The loop of the legacy layout goes through the whole list too,
    unless a fetch is rejected or the quota check leaves it. *)
Lemma legacy_harvest_through yt trending : forall c w,
  exists new,
    fetches (snd (harvest yt trending c w)) = (fetches w ++ new)%list ∧
    (videoId <$> new = trending ∨
     endsRejected new ∨
     MAX_COMMENTS_PER_DAY < c + commentsIn new + MAX_COMMENTS_PER_VIDEO).
Proof.
  induction trending as [| video rest IH]; intros c w.
  - exists []. cbn. rewrite app_nil_r. split; [done |]. by left.
  - rewrite legacy_harvest_cons.
    destruct (fetchAllCommentsForVideo yt video (apiKey (this w))
                MAX_COMMENTS_PER_VIDEO) as [comments | e].
    + cbn zeta.
      destruct (Z.gtb_spec (c + Z.of_nat (length comments) + MAX_COMMENTS_PER_VIDEO)
                  MAX_COMMENTS_PER_DAY) as [Hfull | Hfull].
      * eexists [_]. cbn [snd visited fetches set_harvestedYoutubeIDs set_map
                           log_fetch].
        split; [done |].
        right. right. rewrite SplitFacts.commentsIn_cons.
        unfold commentsOf at 1. cbn [response commentsIn foldr]. lia.
      * destruct (IH (c + Z.of_nat (length comments))
                    (visited video comments w)) as (new & Hlog & Hend).
        exists ({| videoId := video; response := Returned comments |} :: new).
        rewrite Hlog. cbn [visited fetches set_harvestedYoutubeIDs set_map
                           log_fetch].
        rewrite <- app_assoc. split; [done |].
        destruct Hend as [Hall | [Hrejected | Hquota]].
        -- left. cbn. by rewrite Hall.
        -- right. left. by apply SplitFacts.endsRejected_cons.
        -- right. right. rewrite SplitFacts.commentsIn_cons.
           unfold commentsOf at 1. cbn [response]. lia.
    + eexists [_]. cbn [snd log_fetch fetches]. split; [done |].
      right. left. by eexists.
Qed.

Lemma legacy_cycle_through yt w videos :
  fetchTrendingVideos yt (apiKey (this w)) = Returned videos ->
  let new := fetchedDuring w (snd (updateMapFromYoutube yt w)) in
  videoId <$> new = trendingBatch (harvestedYoutubeIDs (this w)) videos ∨
  endsRejected new ∨
  MAX_COMMENTS_PER_DAY < commentsIn new + MAX_COMMENTS_PER_VIDEO.
Proof.
  intros Hvideos. cbn zeta. rewrite legacy_cycle_unfold, Hvideos.
  destruct (legacy_harvest_through yt
              (trendingBatch (harvestedYoutubeIDs (this w)) videos) 0 w)
    as (new & Hnew & Hend).
  destruct (harvest yt _ 0 w) as [[c | e] w1]; cbn [snd] in *.
  - rewrite <- saveMap_fetches in Hnew.
    by rewrite (legacy_fetchedDuring_app _ _ _ Hnew).
  - by rewrite (legacy_fetchedDuring_app _ _ _ Hnew).
Qed.

Lemma legacy_cycle_persists yt w videos :
  writable (disk w) (pathToFile (this w)) = true ->
  fetchTrendingVideos yt (apiKey (this w)) = Returned videos ->
  Forall (fun video =>
            returned (fetchAllCommentsForVideo yt video (apiKey (this w))
                        MAX_COMMENTS_PER_VIDEO) = true)
         (trendingBatch (harvestedYoutubeIDs (this w)) videos) ->
  let r := updateMapFromYoutube yt w in
  fst r = Returned tt ∧
  files (disk (snd r)) !! pathToFile (this (snd r)) =
    Some (stringify_structure
            (map (this (snd r)),
             elements (harvestedYoutubeIDs (this (snd r))))).
Proof.
  intros Hw Hvideos Hok. cbn zeta. rewrite legacy_cycle_unfold, Hvideos.
  destruct (legacy_harvest_success yt _ 0 w Hok) as (c' & Hret).
  destruct (legacy_harvest_frame yt
              (trendingBatch (harvestedYoutubeIDs (this w)) videos) 0 w)
    as (Hdisk & _ & Hpath & _).
  destruct (harvest yt _ 0 w) as [[c | e] w1]; cbn [fst snd] in *; [| done].
  split; [done |].
  rewrite saveMap_this, saveMap_ready by (by rewrite Hdisk, Hpath).
  cbn. by rewrite lookup_insert_eq.
Qed.

End Facts.
End LegacyFacts.

(** ** Both layouts *)

Section BothLayouts.
Context `{Library} `{Json}.

(** C3: whatever list the discovery collaborator returns, the batch of
    a cycle is that list without the identifiers that are already in
    the harvested set, in the same relative order, cut after
    [MAX_VIDEOS_PER_UPDATE] elements. The cycle is the loop over that
    batch, followed by the save when the loop returns; the videos it
    fetches are the first ones of the batch, in order, and they are
    the whole batch unless a fetch is rejected, which ends the cycle
    there, or the quota check leaves the loop. In both layouts. *)
Theorem batch_is_filtered_and_capped yt (ws : Split.World) (wl : Legacy.World) :
  match fetchTrendingVideos yt (Split.apiKey (Split.this ws)) with
  | Returned videos =>
      let harvested := Split.harvestedYoutubeIDs (Split.this ws) in
      let batch := Split.trendingBatch harvested videos in
      let new := Split.fetchedDuring ws
                   (snd (Split.updateMapFromYoutube yt ws)) in
      batch = batchOfSpec Split.MAX_VIDEOS_PER_UPDATE harvested videos ∧
      batch `sublist_of` videos ∧
      Z.of_nat (length batch) <= Split.MAX_VIDEOS_PER_UPDATE ∧
      Forall (fun video => video ∉ harvested) batch ∧
      Split.updateMapFromYoutube yt ws =
        match Split.harvest yt
                (batchOfSpec Split.MAX_VIDEOS_PER_UPDATE harvested videos)
                0 ws with
        | (Returned _, w1) => (Returned tt, snd (Split.saveDataToStorage w1))
        | (Thrown e, w1) => (Thrown e, w1)
        end ∧
      (videoId <$> new) `prefix_of` batch ∧
      (videoId <$> new = batch ∨
       endsRejected new ∨
       Split.MAX_COMMENTS_PER_DAY <
         commentsIn new + Split.MAX_COMMENTS_PER_VIDEO)
  | Thrown e =>
      Split.updateMapFromYoutube yt ws = (Thrown e, ws)
  end ∧
  match fetchTrendingVideos yt (Legacy.apiKey (Legacy.this wl)) with
  | Returned videos =>
      let harvested := Legacy.harvestedYoutubeIDs (Legacy.this wl) in
      let batch := Legacy.trendingBatch harvested videos in
      let new := Legacy.fetchedDuring wl
                   (snd (Legacy.updateMapFromYoutube yt wl)) in
      batch = batchOfSpec Legacy.MAX_VIDEOS_PER_UPDATE harvested videos ∧
      batch `sublist_of` videos ∧
      Z.of_nat (length batch) <= Legacy.MAX_VIDEOS_PER_UPDATE ∧
      Forall (fun video => video ∉ harvested) batch ∧
      Legacy.updateMapFromYoutube yt wl =
        match Legacy.harvest yt
                (batchOfSpec Legacy.MAX_VIDEOS_PER_UPDATE harvested videos)
                0 wl with
        | (Returned _, w1) => (Returned tt, snd (Legacy.saveMapToStorage w1))
        | (Thrown e, w1) => (Thrown e, w1)
        end ∧
      (videoId <$> new) `prefix_of` batch ∧
      (videoId <$> new = batch ∨
       endsRejected new ∨
       Legacy.MAX_COMMENTS_PER_DAY <
         commentsIn new + Legacy.MAX_COMMENTS_PER_VIDEO)
  | Thrown e =>
      Legacy.updateMapFromYoutube yt wl = (Thrown e, wl)
  end.
Proof.
  split.
  - rewrite SplitFacts.cycle_unfold.
    destruct (fetchTrendingVideos yt (Split.apiKey (Split.this ws)))
      as [videos | e] eqn:Hvideos; [| done].
    cbn zeta.
    destruct (SplitFacts.batch_properties
                (Split.harvestedYoutubeIDs (Split.this ws)) videos)
      as (? & ? & ?).
    split; [apply SplitFacts.batch_meets_spec |].
    do 3 (split; [done |]).
    split; [by rewrite SplitFacts.batch_meets_spec |].
    pose proof (SplitFacts.cycle_visits_batch yt ws videos Hvideos) as Hpre.
    pose proof (SplitFacts.cycle_through yt ws videos Hvideos) as Hend.
    rewrite SplitFacts.cycle_unfold, Hvideos in Hpre, Hend.
    by split.
  - rewrite LegacyFacts.legacy_cycle_unfold.
    destruct (fetchTrendingVideos yt (Legacy.apiKey (Legacy.this wl)))
      as [videos | e] eqn:Hvideos; [| done].
    cbn zeta.
    destruct (LegacyFacts.legacy_batch_properties
                (Legacy.harvestedYoutubeIDs (Legacy.this wl)) videos)
      as (? & ? & ?).
    split; [apply LegacyFacts.legacy_batch_meets_spec |].
    do 3 (split; [done |]).
    split; [by rewrite LegacyFacts.legacy_batch_meets_spec |].
    pose proof (LegacyFacts.legacy_cycle_visits_batch yt wl videos Hvideos)
      as Hpre.
    pose proof (LegacyFacts.legacy_cycle_through yt wl videos Hvideos)
      as Hend.
    rewrite LegacyFacts.legacy_cycle_unfold, Hvideos in Hpre, Hend.
    by split.
Qed.

(** C4, as the code has it: with the storage in place, a call of
    [updateMapFromYoutube] whose loop returns, through the end of the
    batch or through the quota check, issues the writes of the map and
    of the harvested IDs before it returns, without awaiting them: the
    files hold them once these writes have been carried out. A call
    whose discovery or comment fetch is rejected is rejected too and
    does not reach the save: the split layout has then written to no
    file but the comment log, the legacy layout to none at all. *)
Theorem cycle_persists_when_it_returns yt (ws : Split.World)
  (wl : Legacy.World) :
  Split.storageReady ws ->
  writable (Legacy.disk wl) (Legacy.pathToFile (Legacy.this wl)) = true ->
  let rs := Split.updateMapFromYoutube yt ws in
  let rl := Legacy.updateMapFromYoutube yt wl in
  match fetchTrendingVideos yt (Split.apiKey (Split.this ws)) with
  | Returned videos =>
      match fst (Split.harvest yt
                   (Split.trendingBatch
                      (Split.harvestedYoutubeIDs (Split.this ws)) videos)
                   0 ws) with
      | Returned _ =>
          fst rs = Returned tt ∧
          files (Split.disk (snd rs)) !! Split.pathToMapStorage (Split.this (snd rs))
            = Some (stringify_map (Split.map (Split.this (snd rs)))) ∧
          files (Split.disk (snd rs))
            !! Split.pathToVideosProcessedStorage (Split.this (snd rs))
            = Some (stringify_ids
                      (elements (Split.harvestedYoutubeIDs (Split.this (snd rs)))))
      | Thrown e =>
          fst rs = Thrown e ∧
          forall p, p ≠ Split.pathToCommentStorage (Split.this ws) ->
            files (Split.disk (snd rs)) !! p = files (Split.disk ws) !! p
      end
  | Thrown e => rs = (Thrown e, ws)
  end ∧
  match fetchTrendingVideos yt (Legacy.apiKey (Legacy.this wl)) with
  | Returned videos =>
      match fst (Legacy.harvest yt
                   (Legacy.trendingBatch
                      (Legacy.harvestedYoutubeIDs (Legacy.this wl)) videos)
                   0 wl) with
      | Returned _ =>
          fst rl = Returned tt ∧
          files (Legacy.disk (snd rl)) !! Legacy.pathToFile (Legacy.this (snd rl))
            = Some (stringify_structure
                      (Legacy.map (Legacy.this (snd rl)),
                       elements (Legacy.harvestedYoutubeIDs
                                   (Legacy.this (snd rl)))))
      | Thrown e =>
          fst rl = Thrown e ∧ Legacy.disk (snd rl) = Legacy.disk wl
      end
  | Thrown e => rl = (Thrown e, wl)
  end.
Proof.
  intros Hready Hwritable. cbn zeta. split.
  - rewrite SplitFacts.cycle_unfold.
    destruct (fetchTrendingVideos yt (Split.apiKey (Split.this ws)))
      as [videos | e]; [| done].
    pose proof (SplitFacts.harvest_keeps_ready yt
                  (Split.trendingBatch
                     (Split.harvestedYoutubeIDs (Split.this ws)) videos)
                  0 ws Hready) as Hready'.
    pose proof (SplitFacts.harvest_other_files yt
                  (Split.trendingBatch
                     (Split.harvestedYoutubeIDs (Split.this ws)) videos)
                  0 ws) as Hfiles.
    destruct (Split.harvest yt _ 0 ws) as [[c | e] w1]; cbn [fst snd] in *.
    + split; [done |]. by apply SplitFacts.saveData_stores.
    + split; [done |]. intros p Hp. by apply Hfiles.
  - rewrite LegacyFacts.legacy_cycle_unfold.
    destruct (fetchTrendingVideos yt (Legacy.apiKey (Legacy.this wl)))
      as [videos | e]; [| done].
    destruct (LegacyFacts.legacy_harvest_frame yt
                (Legacy.trendingBatch
                   (Legacy.harvestedYoutubeIDs (Legacy.this wl)) videos) 0 wl)
      as (Hdisk & _ & Hpath & _).
    destruct (Legacy.harvest yt _ 0 wl) as [[c | e] w1]; cbn [fst snd] in *.
    + split; [done |].
      rewrite LegacyFacts.saveMap_this, LegacyFacts.saveMap_ready
        by (by rewrite Hdisk, Hpath).
      cbn. by rewrite lookup_insert_eq.
    + done.
Qed.

End BothLayouts.

(** ** More of the split layout *)

Module SplitCoverage.
Import Split.

Section Facts.
Context `{Library} `{Json}.

(** *** What a cycle marks as harvested *)

Lemma answeredVideos_app log1 log2 :
  answeredVideos (log1 ++ log2) =
  (answeredVideos log1 ++ answeredVideos log2)%list.
Proof. unfold answeredVideos. by rewrite list.filter_app, fmap_app. Qed.

Lemma answeredVideos_length log :
  (length (answeredVideos log) <= length log)%nat.
Proof. unfold answeredVideos. rewrite length_fmap. apply length_filter. Qed.

Lemma size_union_le (X Y : gset string) :
  (size (X ∪ Y) <= size X + size Y)%nat.
Proof.
  rewrite size_union_alt.
  assert (size (Y ∖ X) <= size Y)%nat by (apply subseteq_size; set_solver).
  lia.
Qed.

Lemma size_list_to_set_le (l : list string) :
  (size (list_to_set l : gset string) <= length l)%nat.
Proof.
  induction l as [| x l IH]; cbn.
  - by rewrite size_empty.
  - etrans; [apply size_union_le |]. rewrite size_singleton. lia.
Qed.

(** The loop marks exactly the videos whose fetch answered. *)
Lemma harvest_marks yt trending : forall c w,
  exists new,
    fetches (snd (harvest yt trending c w)) = (fetches w ++ new)%list ∧
    (length new <= length trending)%nat ∧
    harvestedYoutubeIDs (this (snd (harvest yt trending c w))) =
      list_to_set (answeredVideos new) ∪ harvestedYoutubeIDs (this w).
Proof.
  induction trending as [| video rest IH]; intros c w.
  - exists []. cbn. rewrite app_nil_r. split; [done |]. split; [done |].
    set_solver.
  - rewrite SplitFacts.harvest_cons.
    destruct (fetchAllCommentsForVideo yt video (apiKey (this w))
                MAX_COMMENTS_PER_VIDEO) as [comments | e].
    + cbn zeta. destruct (_ >? _).
      * eexists [_]. cbn [snd].
        rewrite SplitFacts.visited_fetches, SplitFacts.visited_harvested.
        split; [done |]. split; [cbn; lia |]. cbn. set_solver.
      * destruct (IH (c + Z.of_nat (length comments))
                    (visited video comments w)) as (new & Hlog & Hlen & Hids).
        exists ({| videoId := video; response := Returned comments |} :: new).
        rewrite Hlog, Hids, SplitFacts.visited_fetches,
          SplitFacts.visited_harvested, <- app_assoc.
        split; [done |]. split; [cbn; lia |].
        change (answeredVideos
                  ({| videoId := video; response := Returned comments |} :: new))
          with (video :: answeredVideos new).
        cbn. set_solver.
    + eexists [_]. cbn [snd]. split; [done |]. split; [cbn; lia |].
      cbn. set_solver.
Qed.

Lemma cycle_marks yt w :
  exists new,
    fetches (snd (updateMapFromYoutube yt w)) = (fetches w ++ new)%list ∧
    Z.of_nat (length new) <= MAX_VIDEOS_PER_UPDATE ∧
    harvestedYoutubeIDs (this (snd (updateMapFromYoutube yt w))) =
      list_to_set (answeredVideos new) ∪ harvestedYoutubeIDs (this w).
Proof.
  rewrite SplitFacts.cycle_unfold.
  destruct (fetchTrendingVideos yt (apiKey (this w))) as [videos | e].
  - destruct (harvest_marks yt
                (trendingBatch (harvestedYoutubeIDs (this w)) videos) 0 w)
      as (new & Hlog & Hlen & Hids).
    destruct (SplitFacts.batch_properties
                (harvestedYoutubeIDs (this w)) videos) as (_ & Hmax & _).
    exists new.
    destruct (harvest yt _ 0 w) as [[c | e] w1]; cbn [snd] in *;
      rewrite ?SplitFacts.saveData_fetches, ?SplitFacts.saveData_this;
      (split; [done |]); (split; [lia | done]).
  - exists []. cbn [snd]. rewrite app_nil_r. split; [done |].
    split; [by vm_compute |]. cbn. set_solver.
Qed.

(** X1: whatever its outcome, a cycle adds to the harvested set exactly
    the videos whose fetch answered during the cycle, a video whose
    fetch was rejected is not marked, and [getVideosProcessed] never
    falls and rises by at most [MAX_VIDEOS_PER_UPDATE]. *)
Theorem cycle_marks_answered_videos yt w :
  let w' := snd (updateMapFromYoutube yt w) in
  harvestedYoutubeIDs (this w') =
    list_to_set (answeredVideos (fetchedDuring w w'))
    ∪ harvestedYoutubeIDs (this w) ∧
  getVideosProcessed (this w) <= getVideosProcessed (this w') ∧
  getVideosProcessed (this w') <=
    getVideosProcessed (this w) + MAX_VIDEOS_PER_UPDATE.
Proof.
  cbn zeta. destruct (cycle_marks yt w) as (new & Hlog & Hlen & Hids).
  rewrite (SplitFacts.fetchedDuring_app _ _ _ Hlog). split; [done |].
  unfold getVideosProcessed. rewrite Hids.
  pose proof (answeredVideos_length new) as Hanswered.
  pose proof (size_list_to_set_le (answeredVideos new)) as Hsize.
  pose proof (size_union_le (list_to_set (answeredVideos new) : gset string)
                (harvestedYoutubeIDs (this w))) as Hunion.
  assert (size (harvestedYoutubeIDs (this w)) <=
          size (list_to_set (answeredVideos new)
                  ∪ harvestedYoutubeIDs (this w)))%nat as Hmono.
  { apply subseteq_size. set_solver. }
  split; lia.
Qed.

(** *** Where the loop stops *)

Lemma harvest_stops_at_quota_only yt trending : forall c w,
  Forall (fun video =>
            returned (fetchAllCommentsForVideo yt video (apiKey (this w))
                        MAX_COMMENTS_PER_VIDEO) = true) trending ->
  exists new,
    fetches (snd (harvest yt trending c w)) = (fetches w ++ new)%list ∧
    fst (harvest yt trending c w) = Returned (c + commentsIn new) ∧
    (videoId <$> new) `prefix_of` trending ∧
    (videoId <$> new = trending ∨
     MAX_COMMENTS_PER_DAY < c + commentsIn new + MAX_COMMENTS_PER_VIDEO).
Proof.
  induction trending as [| video rest IH]; intros c w Hok.
  - exists []. cbn. rewrite app_nil_r, Z.add_0_r.
    split; [done |]. split; [done |]. split; [done |]. by left.
  - apply Forall_cons in Hok as [Hvideo Hrest].
    rewrite SplitFacts.harvest_cons.
    destruct (fetchAllCommentsForVideo yt video (apiKey (this w))
                MAX_COMMENTS_PER_VIDEO) as [comments | e]; [| done].
    cbn zeta.
    destruct (Z.gtb_spec (c + Z.of_nat (length comments) + MAX_COMMENTS_PER_VIDEO)
                MAX_COMMENTS_PER_DAY) as [Hfull | Hroom].
    + exists [{| videoId := video; response := Returned comments |}].
      cbn [fst snd]. rewrite SplitFacts.visited_fetches.
      rewrite SplitFacts.commentsIn_cons. unfold commentsOf at 1 2.
      cbn [response commentsIn foldr]. rewrite Z.add_0_r.
      split; [done |]. split; [done |].
      split; [apply prefix_cons, prefix_nil |]. right. lia.
    + destruct (IH (c + Z.of_nat (length comments))
                  (visited video comments w))
        as (new & Hlog & Hret & Hpre & Hend).
      { by rewrite SplitFacts.visited_apiKey. }
      exists ({| videoId := video; response := Returned comments |} :: new).
      rewrite Hlog, Hret, SplitFacts.visited_fetches, <- app_assoc.
      rewrite SplitFacts.commentsIn_cons. unfold commentsOf at 1 2.
      cbn [response].
      split; [done |]. split; [f_equal; lia |].
      split; [by apply prefix_cons |].
      destruct Hend as [Hall | Hfull]; [left | right].
      * cbn. by rewrite Hall.
      * lia.
Qed.

(** X2: in a cycle in which no fetch is rejected, the loop leaves out
    videos of the batch only through the quota check: either every
    video of the batch has been fetched, in order, or the comments
    fetched so far plus [MAX_COMMENTS_PER_VIDEO] exceed
    [MAX_COMMENTS_PER_DAY]. *)
Theorem loop_stops_at_quota_only yt w videos :
  fetchTrendingVideos yt (apiKey (this w)) = Returned videos ->
  forallb (fun video =>
             returned (fetchAllCommentsForVideo yt video (apiKey (this w))
                         MAX_COMMENTS_PER_VIDEO))
          (trendingBatch (harvestedYoutubeIDs (this w)) videos) = true ->
  let new := fetchedDuring w (snd (updateMapFromYoutube yt w)) in
  fst (updateMapFromYoutube yt w) = Returned tt ∧
  (videoId <$> new) `prefix_of`
    trendingBatch (harvestedYoutubeIDs (this w)) videos ∧
  (videoId <$> new = trendingBatch (harvestedYoutubeIDs (this w)) videos ∨
   MAX_COMMENTS_PER_DAY < commentsIn new + MAX_COMMENTS_PER_VIDEO).
Proof.
  intros Hvideos Hok. cbn zeta.
  assert (Forall (fun video =>
            returned (fetchAllCommentsForVideo yt video (apiKey (this w))
                        MAX_COMMENTS_PER_VIDEO) = true)
            (trendingBatch (harvestedYoutubeIDs (this w)) videos)) as Hall.
  { rewrite forallb_forall in Hok. apply Forall_forall. intros video Hin.
    by apply Hok, list_elem_of_In. }
  destruct (harvest_stops_at_quota_only yt _ 0 w Hall)
    as (new & Hlog & Hret & Hpre & Hend).
  rewrite SplitFacts.cycle_unfold, Hvideos.
  destruct (harvest yt _ 0 w) as [[c | e] w1]; cbn [fst snd] in *;
    [| done].
  rewrite <- SplitFacts.saveData_fetches in Hlog.
  rewrite (SplitFacts.fetchedDuring_app _ _ _ Hlog).
  split; [done |]. split; [done |].
  destruct Hend as [Hdone | Hfull]; [by left | right; lia].
Qed.

(** *** Saving and starting again *)

Section RoundTrip.
(** What [JSON.stringify] writes, [JSON.parse] reads back. *)
Hypothesis ids_round_trip :
  forall ids, parse_ids (stringify_ids ids) = Some (IdArray ids).
Hypothesis map_round_trip :
  forall m, parse_map (stringify_map m) = Some m.

Lemma stored_after_save w :
  storageReady w ->
  stored parse_ids (disk (snd (saveDataToStorage w)))
    (pathToVideosProcessedStorage (this w))
    = Some (IdArray (elements (harvestedYoutubeIDs (this w)))) ∧
  stored parse_map (disk (snd (saveDataToStorage w)))
    (pathToMapStorage (this w))
    = Some (map (this w)).
Proof.
  intros Hready. unfold stored. rewrite SplitFacts.saveData_ready by done.
  destruct Hready as (Hmap & Hids & _ & Hne).
  rewrite !readFile_writable by done. cbn.
  rewrite lookup_insert_ne by done. rewrite !lookup_insert_eq.
  by rewrite ids_round_trip, map_round_trip.
Qed.

(** A new process on the disk that a save has left is the old one
    again: it runs, with the object of the old one. *)
Lemma restart_after_save w :
  storageReady w ->
  step (Running (snd (saveDataToStorage w))) Restart =
  Running (snd (saveDataToStorage w)).
Proof.
  intros Hready. destruct (stored_after_save w Hready) as [Hids Hmap].
  cbn [step world]. unfold boot. rewrite SplitFacts.initialise_unfold.
  unfold idsLoaded. cbn [this disk construct pathToMapStorage
    pathToVideosProcessedStorage pathToCommentStorage].
  rewrite !SplitFacts.saveData_this, Hids, Hmap.
  rewrite SplitFacts.saveData_ready by done.
  unfold set_map, set_harvestedYoutubeIDs, set_disk.
  cbn [this disk fetches apiKey pathToMapStorage pathToCommentStorage
       pathToVideosProcessedStorage map harvestedYoutubeIDs construct].
  rewrite list_to_set_elements_L. do 2 f_equal. clear. generalize (this w).
  intros self. by destruct self.
Qed.

(** X4: with the storage in place and a JSON that reads back what it
    writes, a restart after a cycle that returned gives a running
    process whose object has the same configuration, the same map and
    the same harvested set as the one the cycle left, on the same disk
    and with the same log. *)
Theorem restart_after_cycle_restores_object yt w :
  storageReady w ->
  fst (updateMapFromYoutube yt w) = Returned tt ->
  step (step (Running w) (Cycle yt)) Restart = step (Running w) (Cycle yt).
Proof.
  intros Hready Hreturned. cbn [step world] in *.
  rewrite SplitFacts.cycle_unfold in *.
  destruct (fetchTrendingVideos yt (apiKey (this w))) as [videos | e];
    [| done].
  pose proof (SplitFacts.harvest_keeps_ready yt
                (trendingBatch (harvestedYoutubeIDs (this w)) videos) 0 w
                Hready) as Hready'.
  destruct (harvest yt _ 0 w) as [[c | e] w1]; cbn [fst snd] in *; [| done].
  pose proof (restart_after_save w1 Hready') as Hrestart.
  cbn [step world] in Hrestart. exact Hrestart.
Qed.

End RoundTrip.

(** *** What is written where *)

Lemma mkdirSync_files d p d' : mkdirSync d p = Returned d' -> files d' = files d.
Proof.
  unfold mkdirSync. repeat case_match; intros; by simplify_eq.
Qed.

Lemma writeFile_other_files d p data d' q :
  writeFile d p data = Returned d' -> q ≠ p -> files d' !! q = files d !! q.
Proof.
  unfold writeFile. repeat case_match; intros; simplify_eq.
  cbn. by rewrite lookup_insert_ne.
Qed.

Lemma appendFile_other_files d p data d' q :
  appendFile d p data = Returned d' -> q ≠ p -> files d' !! q = files d !! q.
Proof.
  unfold appendFile. repeat case_match; intros; simplify_eq.
  cbn. by rewrite lookup_insert_ne.
Qed.

Lemma saveJSON_other_files {T} (stringify : T -> string) obj p w q :
  q ≠ p ->
  files (disk (snd (saveJSONToFile stringify obj p w))) !! q =
  files (disk w) !! q.
Proof.
  intros Hq. unfold saveJSONToFile, bind, gets, ret, onDisk.
  destruct (existsSync (disk w) (dirname p)); cbn [negb].
  - destruct (writeFile (disk w) p (stringify obj)) as [d' | e] eqn:Hwrite;
      cbn; [| done]. by eapply writeFile_other_files.
  - destruct (mkdirSync (disk w) (dirname p)) as [d1 | e] eqn:Hmk;
      cbn; [| done].
    destruct (writeFile d1 p (stringify obj)) as [d' | e] eqn:Hwrite;
      cbn; rewrite <- (mkdirSync_files _ _ _ Hmk); [| done].
    by eapply writeFile_other_files.
Qed.

Lemma saveComments_other_files comments w q :
  q ≠ pathToCommentStorage (this w) ->
  files (disk (snd (saveCommentsToStorage comments w))) !! q =
  files (disk w) !! q.
Proof.
  intros Hq. unfold saveCommentsToStorage, bind, gets, ret, onDisk.
  destruct (existsSync (disk w) _); cbn [negb].
  - destruct (appendFile (disk w) _ _) as [d' | e] eqn:Hwrite;
      cbn; [| done]. by eapply appendFile_other_files.
  - destruct (mkdirSync (disk w) _) as [d1 | e] eqn:Hmk; cbn; [| done].
    destruct (appendFile d1 _ _) as [d' | e] eqn:Hwrite;
      cbn; rewrite <- (mkdirSync_files _ _ _ Hmk); [| done].
    by eapply appendFile_other_files.
Qed.

Lemma saveData_other_files w q :
  q ≠ pathToMapStorage (this w) ->
  q ≠ pathToVideosProcessedStorage (this w) ->
  files (disk (snd (saveDataToStorage w))) !! q = files (disk w) !! q.
Proof.
  intros Hmap Hids. rewrite SplitFacts.saveData_unfold. cbn [snd].
  by rewrite !saveJSON_other_files.
Qed.

Lemma harvest_writes_log_only yt trending : forall c w q,
  q ≠ pathToCommentStorage (this w) ->
  files (disk (snd (harvest yt trending c w))) !! q = files (disk w) !! q.
Proof.
  induction trending as [| video rest IH]; intros c w q Hq; [done |].
  rewrite SplitFacts.harvest_cons.
  destruct (fetchAllCommentsForVideo yt video (apiKey (this w))
              MAX_COMMENTS_PER_VIDEO) as [comments | e]; [| done].
  assert (files (disk (visited video comments w)) !! q = files (disk w) !! q)
    as Hone.
  { unfold visited. by rewrite saveComments_other_files. }
  cbn zeta. destruct (_ >? _); cbn [snd]; [done |].
  rewrite IH; [done |].
  by destruct (SplitFacts.visited_paths video comments w) as (_ & _ & ->).
Qed.

(** X3: neither start-up nor a harvest cycle, whatever their outcome
    and whatever the state of the disk, changes the contents of a file
    other than the storage files: [initialise] writes to the map file
    and the ID index at most, [updateMapFromYoutube] to these and the
    comment log at most. *)
Theorem only_storage_files_are_written yt w q :
  q ≠ pathToMapStorage (this w) ->
  q ≠ pathToVideosProcessedStorage (this w) ->
  files (disk (snd (initialise w))) !! q = files (disk w) !! q ∧
  (q = pathToCommentStorage (this w) ∨
   files (disk (snd (updateMapFromYoutube yt w))) !! q = files (disk w) !! q).
Proof.
  intros Hmap Hids. split.
  - rewrite SplitFacts.initialise_unfold.
    pose proof (SplitFacts.idsLoaded_sameConfig w) as (_ & Hpm & Hpi & _).
    pose proof (SplitFacts.idsLoaded_disk w) as Hdisk.
    destruct (stored parse_ids (disk w) _) as [[ids |] |]; [| done |];
      (destruct (stored parse_map (disk w) _) as [m |];
       [| destruct (readFile (disk w) _) as [text | e] ]; cbn [snd];
       [ cbn; by rewrite Hdisk
       | rewrite saveData_other_files; cbn; by rewrite ?Hdisk, ?Hpm, ?Hpi
       | cbn; by rewrite Hdisk ]).
  - destruct (decide (q = pathToCommentStorage (this w))) as [-> | Hlog];
      [by left | right].
    rewrite SplitFacts.cycle_unfold.
    destruct (fetchTrendingVideos yt (apiKey (this w))) as [videos | e];
      [| done].
    pose proof (harvest_writes_log_only yt
                  (trendingBatch (harvestedYoutubeIDs (this w)) videos)
                  0 w q Hlog) as Hloop.
    destruct (SplitFacts.harvest_general yt
                (trendingBatch (harvestedYoutubeIDs (this w)) videos) 0 w)
      as ((_ & Hpm & Hpi & _) & _).
    destruct (harvest yt _ 0 w) as [[c | e] w1]; cbn [snd] in *; [| done].
    rewrite saveData_other_files; [done | by rewrite Hpm | by rewrite Hpi].
Qed.

(** *** From one batch to the next *)

Lemma filter_same_on (P Q : string -> Prop)
  `{!forall x, Decision (P x)} `{!forall x, Decision (Q x)} (l : list string) :
  (forall x, x ∈ l -> P x <-> Q x) -> filter P l = filter Q l.
Proof.
  induction l as [| x l IH]; intros Hsame; [done |].
  rewrite !filter_cons.
  rewrite IH by (intros y Hy; apply Hsame; by right).
  destruct (decide (P x)) as [HP | HP], (decide (Q x)) as [HQ | HQ];
    try done; exfalso; apply (Hsame x (list_elem_of_here _ _)) in HP || 
    apply (Hsame x (list_elem_of_here _ _)) in HQ; done.
Qed.

(** Removing the first [n] elements of a list without repetition by
    membership removes just these. *)
Lemma filter_out_prefix (l : list string) : NoDup l -> forall n,
  filter (fun x => x ∉ (list_to_set (take n l) : gset string)) l = drop n l.
Proof.
  induction l as [| x l IH]; intros Hnodup n; [by destruct n |].
  apply NoDup_cons in Hnodup as [Hx Hnodup].
  destruct n as [| n]; cbn [take drop].
  - rewrite (filter_same_on _ (fun _ => True)) by set_solver.
    clear. induction (x :: l) as [| y k IHk]; [done |].
    by rewrite filter_cons_True, IHk.
  - rewrite filter_cons_False by set_solver.
    rewrite <- (IH Hnodup n). apply filter_same_on.
    intros y Hy. cbn. set_solver.
Qed.

Lemma harvest_answered_prefix yt trending : forall c w,
  exists new,
    fetches (snd (harvest yt trending c w)) = (fetches w ++ new)%list ∧
    answeredVideos new `prefix_of` trending.
Proof.
  induction trending as [| video rest IH]; intros c w.
  - exists []. cbn. by rewrite app_nil_r.
  - rewrite SplitFacts.harvest_cons.
    destruct (fetchAllCommentsForVideo yt video (apiKey (this w))
                MAX_COMMENTS_PER_VIDEO) as [comments | e].
    + cbn zeta. destruct (_ >? _).
      * eexists [_]. cbn [snd]. rewrite SplitFacts.visited_fetches.
        split; [done |]. apply prefix_cons, prefix_nil.
      * destruct (IH (c + Z.of_nat (length comments))
                    (visited video comments w)) as (new & Hlog & Hpre).
        exists ({| videoId := video; response := Returned comments |} :: new).
        rewrite Hlog, SplitFacts.visited_fetches, <- app_assoc.
        split; [done |].
        change (answeredVideos
                  ({| videoId := video; response := Returned comments |} :: new))
          with (video :: answeredVideos new).
        by apply prefix_cons.
    + eexists [_]. cbn [snd]. split; [done |]. apply prefix_nil.
Qed.

(** X6: when the trending list names no video twice, the batch of the
    next cycle over the same list takes up the filtered list where this
    cycle's answered fetches end: it is the filtered list of this cycle
    without as many leading videos as were fetched with an answer, cut
    after [MAX_VIDEOS_PER_UPDATE]. A video whose fetch was rejected
    heads the next batch. *)
Theorem next_batch_resumes yt w videos :
  fetchTrendingVideos yt (apiKey (this w)) = Returned videos ->
  NoDup videos ->
  let w' := snd (updateMapFromYoutube yt w) in
  let candidates :=
    filter (fun videoID => videoID ∉ harvestedYoutubeIDs (this w)) videos in
  answeredVideos (fetchedDuring w w') `prefix_of` candidates ∧
  trendingBatch (harvestedYoutubeIDs (this w')) videos =
  slice0 MAX_VIDEOS_PER_UPDATE
    (drop (length (answeredVideos (fetchedDuring w w'))) candidates).
Proof.
  intros Hvideos Hnodup. cbn zeta.
  destruct (cycle_marks yt w) as (new & Hlog & _ & Hids).
  rewrite (SplitFacts.fetchedDuring_app _ _ _ Hlog), Hids.
  assert (answeredVideos new `prefix_of`
            filter (fun videoID => videoID ∉ harvestedYoutubeIDs (this w))
              videos) as Hprefix.
  { pose proof (SplitFacts.update_fetches yt w) as Hfetches.
    rewrite Hvideos, Hlog in Hfetches.
    destruct (harvest_answered_prefix yt
                (trendingBatch (harvestedYoutubeIDs (this w)) videos) 0 w)
      as (new' & Hlog' & Hpre).
    rewrite Hlog' in Hfetches. apply app_inv_head in Hfetches as ->.
    etrans; [exact Hpre |]. apply prefix_take. }
  split; [done |].
  unfold trendingBatch. f_equal.
  set (candidates :=
         filter (fun videoID => videoID ∉ harvestedYoutubeIDs (this w)) videos)
    in *.
  assert (answeredVideos new = take (length (answeredVideos new)) candidates)
    as Htake.
  { destruct Hprefix as [rest ->]. by rewrite take_app_length. }
  rewrite <- (filter_out_prefix candidates
                (NoDup_filter _ _ Hnodup) (length (answeredVideos new))).
  rewrite <- Htake. unfold candidates. rewrite list_filter_filter.
  apply filter_same_on. intros x _. set_solver.
Qed.

(** *** The size of the map file *)

(** X7: [getSizeOnDisk] never throws, whatever is on the disk: the
    test with [existsSync] keeps [statSync] from a path where nothing
    is. It gives zero when nothing is at the path of the map file and
    the number of bytes of the file when a file is there. *)
Theorem size_on_disk_never_throws directorySize w :
  getSizeOnDisk directorySize w =
  Returned
    (if isDirectory (disk w) (pathToMapStorage (this w))
     then directorySize (pathToMapStorage (this w))
     else match files (disk w) !! pathToMapStorage (this w) with
          | Some text => Z.of_nat (String.length text)
          | None => 0
          end).
Proof.
  unfold getSizeOnDisk, existsSync, isFile, statSync_size.
  destruct (isDirectory (disk w) _); cbn; [done |].
  destruct (files (disk w) !! _) as [text |] eqn:Hfile; [| done].
  by rewrite bool_decide_eq_true_2.
Qed.

(** *** The first write below a missing folder *)

Lemma dirname_fixed (p : path) : p = dirname p -> p = [].
Proof.
  intros Heq. destruct p as [| x p]; [done |]. exfalso.
  pose proof (app_removelast_last x (l := x :: p) ltac:(done)) as Hsplit.
  unfold dirname in Heq. rewrite <- Heq in Hsplit.
  apply (f_equal length) in Hsplit. rewrite length_app in Hsplit.
  cbn in Hsplit. lia.
Qed.

(** X8: when the folder of the comment log is missing and the folder
    above it is there, [saveCommentsToStorage] returns, having created
    the folder and appended the comments, joined by newlines, to the
    log; nothing else on the disk changes. *)
Theorem first_append_creates_folder comments w :
  let p := pathToCommentStorage (this w) in
  existsSync (disk w) (dirname p) = false ->
  isDirectory (disk w) (dirname (dirname p)) = true ->
  isDirectory (disk w) p = false ->
  saveCommentsToStorage comments w =
  (Returned tt,
   set_disk {| dirs := {[dirname p]} ∪ dirs (disk w);
               files := <[p := default "" (files (disk w) !! p)
                               +:+ join newline comments]>
                          (files (disk w)) |} w).
Proof.
  cbn zeta. intros Hmissing Hparent Hfile.
  unfold saveCommentsToStorage, bind, gets, ret, onDisk.
  rewrite Hmissing. cbn [negb]. unfold mkdirSync.
  rewrite Hmissing, Hparent. cbn [disk set_disk this].
  unfold appendFile.
  assert (isDirectory {| dirs := {[dirname (pathToCommentStorage (this w))]}
                                 ∪ dirs (disk w);
                         files := files (disk w) |}
            (dirname (pathToCommentStorage (this w))) = true) as ->.
  { unfold isDirectory. apply bool_decide_eq_true. cbn. set_solver. }
  assert (isDirectory {| dirs := {[dirname (pathToCommentStorage (this w))]}
                                 ∪ dirs (disk w);
                         files := files (disk w) |}
            (pathToCommentStorage (this w)) = false) as ->.
  { unfold isDirectory, existsSync in *.
    apply bool_decide_eq_false. apply bool_decide_eq_false in Hfile.
    apply orb_false_iff in Hmissing as [Hdir _].
    apply bool_decide_eq_false in Hdir. cbn.
    intros [Hroot | [Heq%elem_of_singleton | Hin]%elem_of_union].
    - apply Hfile. by left.
    - apply Hfile. left. by apply dirname_fixed.
    - apply Hfile. by right. }
  done.
Qed.

(** *** A cycle that finds nothing new *)

Lemma batch_of_harvested_videos (harvested : gset string) videos :
  forallb (fun video => bool_decide (video ∈ harvested)) videos = true ->
  trendingBatch harvested videos = [].
Proof.
  intros Hall. unfold trendingBatch, slice0.
  assert (filter (fun videoID => videoID ∉ harvested) videos = []) as ->;
    [| by rewrite take_nil].
  rewrite forallb_forall in Hall.
  induction videos as [| video rest IH]; [done |].
  rewrite filter_cons_False.
  - apply IH. intros x Hx. apply Hall. by right.
  - intros Hout. apply Hout.
    eapply bool_decide_eq_true_1, Hall. by left.
Qed.

(** X13: when every video of the trending list is already harvested,
    the cycle returns without a single comment fetch and leaves the
    object as it was: all it does is the save at its end. *)
Theorem cycle_with_nothing_new yt w videos :
  fetchTrendingVideos yt (apiKey (this w)) = Returned videos ->
  forallb (fun video => bool_decide (video ∈ harvestedYoutubeIDs (this w)))
          videos = true ->
  let r := updateMapFromYoutube yt w in
  fst r = Returned tt ∧
  fetches (snd r) = fetches w ∧
  this (snd r) = this w ∧
  snd r = snd (saveDataToStorage w).
Proof.
  intros Hvideos Hall. cbn zeta.
  rewrite SplitFacts.cycle_unfold, Hvideos.
  rewrite (batch_of_harvested_videos _ _ Hall).
  cbn [harvest]. unfold ret. cbn [fst snd].
  by rewrite SplitFacts.saveData_fetches, SplitFacts.saveData_this.
Qed.

(** *** The map before start-up *)

Lemma initialise_forgets_map m w :
  match stored parse_ids (disk w) (pathToVideosProcessedStorage (this w)) with
  | Some NotIterable =>
      initialise (set_map m w) = (Thrown TypeError, set_map m w)
  | _ => initialise (set_map m w) = initialise w
  end.
Proof.
  rewrite !SplitFacts.initialise_unfold. unfold idsLoaded.
  cbn [disk this set_map pathToMapStorage pathToVideosProcessedStorage
       pathToCommentStorage].
  destruct (stored parse_ids (disk w) _) as [[ids |] |]; [| done |];
    (destruct (stored parse_map (disk w) _) as [m' |]; try done;
     destruct (readFile (disk w) _) as [text | e]; done).
Qed.

End Facts.
End SplitCoverage.

(** ** More of the legacy layout *)

Module LegacyCoverage.
Import Legacy.

Section Facts.
Context `{Library} `{Json}.

(** *** The quota of the legacy constants *)

Lemma legacy_harvest_whole_list yt trending : forall c w,
  respectsLimit yt (apiKey (this w)) MAX_COMMENTS_PER_VIDEO ->
  Forall (fun video =>
            returned (fetchAllCommentsForVideo yt video (apiKey (this w))
                        MAX_COMMENTS_PER_VIDEO) = true) trending ->
  c + MAX_COMMENTS_PER_VIDEO * Z.of_nat (length trending)
    <= MAX_COMMENTS_PER_DAY ->
  exists new,
    fetches (snd (harvest yt trending c w)) = (fetches w ++ new)%list ∧
    returned (fst (harvest yt trending c w)) = true ∧
    videoId <$> new = trending ∧
    commentsIn new <= MAX_COMMENTS_PER_VIDEO * Z.of_nat (length trending).
Proof.
  induction trending as [| video rest IH]; intros c w Hlimit Hok Hroom.
  - exists []. cbn. rewrite app_nil_r. repeat split; try done; lia.
  - apply Forall_cons in Hok as [Hvideo Hrest].
    rewrite LegacyFacts.legacy_harvest_cons.
    destruct (fetchAllCommentsForVideo yt video (apiKey (this w))
                MAX_COMMENTS_PER_VIDEO) as [comments | e] eqn:Hanswer;
      [| done].
    pose proof (Hlimit _ _ Hanswer) as Hlen. cbn zeta.
    cbn [length] in Hroom. rewrite Nat2Z.inj_succ in *.
    destruct (Z.gtb_spec (c + Z.of_nat (length comments) + MAX_COMMENTS_PER_VIDEO)
                MAX_COMMENTS_PER_DAY) as [Hfull | Hfree].
    + destruct rest as [| next rest].
      * exists [{| videoId := video; response := Returned comments |}].
        cbn [fst snd]. split; [done |]. split; [done |]. split; [done |].
        rewrite SplitFacts.commentsIn_cons. unfold commentsOf. cbn. lia.
      * exfalso. cbn [length] in Hroom. rewrite Nat2Z.inj_succ in Hroom.
        unfold MAX_COMMENTS_PER_VIDEO in *. lia.
    + destruct (IH (c + Z.of_nat (length comments))
                  (visited video comments w))
        as (new & Hlog & Hret & Hids & Hsum); [done | done | lia |].
      exists ({| videoId := video; response := Returned comments |} :: new).
      rewrite Hlog. cbn [visited fetches set_harvestedYoutubeIDs set_map
                        log_fetch].
      rewrite <- app_assoc. split; [done |]. split; [done |].
      split; [cbn; by rewrite Hids |].
      rewrite SplitFacts.commentsIn_cons. unfold commentsOf at 1.
      cbn [response length]. rewrite Nat2Z.inj_succ. lia.
Qed.

(** X9: with the constants of the legacy layout the quota check never
    cuts a cycle short: when the collaborator keeps to the maximum it
    is given and no fetch is rejected, every video of the batch is
    fetched, in order, the call returns, and the comments fetched are
    at most [MAX_VIDEOS_PER_UPDATE * MAX_COMMENTS_PER_VIDEO]. *)
Theorem legacy_cycle_fetches_whole_batch yt w videos :
  fetchTrendingVideos yt (apiKey (this w)) = Returned videos ->
  respectsLimit yt (apiKey (this w)) MAX_COMMENTS_PER_VIDEO ->
  forallb (fun video =>
             returned (fetchAllCommentsForVideo yt video (apiKey (this w))
                         MAX_COMMENTS_PER_VIDEO))
          (trendingBatch (harvestedYoutubeIDs (this w)) videos) = true ->
  let new := fetchedDuring w (snd (updateMapFromYoutube yt w)) in
  fst (updateMapFromYoutube yt w) = Returned tt ∧
  videoId <$> new = trendingBatch (harvestedYoutubeIDs (this w)) videos ∧
  commentsIn new <= MAX_VIDEOS_PER_UPDATE * MAX_COMMENTS_PER_VIDEO.
Proof.
  intros Hvideos Hlimit Hok. cbn zeta.
  assert (Forall (fun video =>
            returned (fetchAllCommentsForVideo yt video (apiKey (this w))
                        MAX_COMMENTS_PER_VIDEO) = true)
            (trendingBatch (harvestedYoutubeIDs (this w)) videos)) as Hall.
  { rewrite forallb_forall in Hok. apply Forall_forall. intros video Hin.
    by apply Hok, list_elem_of_In. }
  destruct (LegacyFacts.legacy_batch_properties
              (harvestedYoutubeIDs (this w)) videos) as (_ & Hmax & _).
  destruct (legacy_harvest_whole_list yt _ 0 w Hlimit Hall)
    as (new & Hlog & Hret & Hids & Hsum).
  { unfold MAX_COMMENTS_PER_VIDEO, MAX_VIDEOS_PER_UPDATE in *.
    change MAX_COMMENTS_PER_DAY with 250000. lia. }
  rewrite LegacyFacts.legacy_cycle_unfold, Hvideos.
  destruct (harvest yt _ 0 w) as [[c | e] w1]; cbn [fst snd] in *;
    [| done].
  rewrite <- LegacyFacts.saveMap_fetches in Hlog.
  rewrite (LegacyFacts.legacy_fetchedDuring_app _ _ _ Hlog).
  split; [done |]. split; [done |].
  unfold MAX_COMMENTS_PER_VIDEO, MAX_VIDEOS_PER_UPDATE in *. lia.
Qed.

(** *** Start-up and restart *)

(** X11: [initialise] of the legacy layout returns on every disk and
    changes neither the disk nor the log: when the file is read and
    parsed, the map and the harvested set are the stored ones;
    otherwise the map is the fresh map of the empty text and the
    harvested set stays as it was. *)
Theorem legacy_initialise_falls_back w :
  let w' := snd (initialise w) in
  let fresh := createDictionaryFromInput "" CHAIN_LENGTH in
  fst (initialise w) = Returned tt ∧
  disk w' = disk w ∧
  fetches w' = fetches w ∧
  apiKey (this w') = apiKey (this w) ∧
  pathToFile (this w') = pathToFile (this w) ∧
  match stored parse_structure (disk w) (pathToFile (this w)) with
  | Some (Some m, IdArray ids) =>
      map (this w') = m ∧ harvestedYoutubeIDs (this w') = list_to_set ids
  | Some (None, IdArray ids) =>
      map (this w') = fresh ∧ harvestedYoutubeIDs (this w') = list_to_set ids
  | Some (_, NotIterable) | None =>
      map (this w') = fresh ∧
      harvestedYoutubeIDs (this w') = harvestedYoutubeIDs (this w)
  end.
Proof.
  cbn zeta.
  unfold initialise, loadMapFromStorage, stored, new_Set, try_catch, bind,
    gets, fromDisk, modify, lift, ret, throw.
  destruct (readFile (disk w) (pathToFile (this w))) as [json | e];
    [| done].
  by destruct (parse_structure json) as [[[m |] [ids |]] |].
Qed.

Section RoundTrip.
Hypothesis structure_round_trip :
  forall data,
    parse_structure (stringify_structure data) =
    Some (Some (fst data), IdArray (snd data)).

(** X10: with the file writable and a JSON that reads back what it
    writes, a restart after a cycle that returned gives an object with
    the same configuration, the same map and the same harvested set as
    the one the cycle left. *)
Theorem legacy_restart_restores_object yt w :
  writable (disk w) (pathToFile (this w)) = true ->
  fst (updateMapFromYoutube yt w) = Returned tt ->
  this (restart (snd (updateMapFromYoutube yt w))) =
  this (snd (updateMapFromYoutube yt w)).
Proof.
  intros Hwritable Hreturned.
  rewrite LegacyFacts.legacy_cycle_unfold in *.
  destruct (fetchTrendingVideos yt (apiKey (this w))) as [videos | e];
    [| done].
  destruct (LegacyFacts.legacy_harvest_frame yt
              (trendingBatch (harvestedYoutubeIDs (this w)) videos) 0 w)
    as (Hdisk & _ & Hpath & _).
  destruct (harvest yt _ 0 w) as [[c | e] w1]; cbn [fst snd] in *; [| done].
  assert (writable (disk w1) (pathToFile (this w1)) = true) as Hw1
    by (by rewrite Hdisk, Hpath).
  unfold restart. rewrite LegacyFacts.saveMap_this, LegacyFacts.saveMap_fetches.
  rewrite (LegacyFacts.saveMap_ready w1 Hw1). cbn [snd disk set_disk].
  rewrite LegacyFacts.legacy_initialise_unfold. unfold stored.
  cbn [snd this disk construct pathToFile].
  rewrite readFile_writable by done. cbn [files written].
  rewrite lookup_insert_eq, structure_round_trip. cbn.
  rewrite list_to_set_elements_L. clear. generalize (this w1).
  intros self. by destruct self.
Qed.

End RoundTrip.

(** *** What is written where *)

(** X14: a cycle of the legacy layout, whatever its outcome and
    whatever the state of the disk, changes the contents of no file
    other than [pathToFile]; and it changes nothing on the disk at all
    when discovery or a fetch is rejected. *)
Theorem legacy_only_the_file_is_written yt w q :
  q ≠ pathToFile (this w) ->
  files (disk (snd (updateMapFromYoutube yt w))) !! q = files (disk w) !! q ∧
  (returned (fst (updateMapFromYoutube yt w)) = true ∨
   disk (snd (updateMapFromYoutube yt w)) = disk w).
Proof.
  intros Hq. rewrite LegacyFacts.legacy_cycle_unfold.
  destruct (fetchTrendingVideos yt (apiKey (this w))) as [videos | e];
    [| split; [done | by right] ].
  destruct (LegacyFacts.legacy_harvest_frame yt
              (trendingBatch (harvestedYoutubeIDs (this w)) videos) 0 w)
    as (Hdisk & _ & Hpath & _).
  destruct (harvest yt _ 0 w) as [[c | e] w1]; cbn [fst snd] in *;
    [| split; [by rewrite Hdisk | by right] ].
  split; [| by left]. rewrite <- Hdisk, <- Hpath in *.
  unfold saveMapToStorage, bind, gets, ret, onDisk.
  destruct (existsSync (disk w1) _); cbn [negb].
  - destruct (writeFile (disk w1) _ _) as [d' | e] eqn:Hwrite;
      cbn; [| done]. by eapply SplitCoverage.writeFile_other_files.
  - destruct (mkdirSync (disk w1) _) as [d1 | e] eqn:Hmk; cbn; [| done].
    destruct (writeFile d1 _ _) as [d' | e] eqn:Hwrite;
      cbn; rewrite <- (SplitCoverage.mkdirSync_files _ _ _ Hmk); [| done].
    by eapply SplitCoverage.writeFile_other_files.
Qed.

Lemma legacy_initialise_forgets_map m w :
  initialise (set_map m w) = initialise w.
Proof.
  unfold initialise, loadMapFromStorage, new_Set, try_catch, bind, gets,
    fromDisk, modify, lift, ret, throw.
  cbn [disk this set_map pathToFile].
  destruct (readFile (disk w) (pathToFile (this w))) as [json | e];
    [| done].
  by destruct (parse_structure json) as [[[m' |] [ids |]] |].
Qed.

End Facts.
End LegacyCoverage.

(** ** More of both layouts *)

Section BothLayoutsCoverage.
Context `{Library} `{Json}.

(** X12: where [initialise] returns it has assigned the map, whatever
    value the field had before: the call has the same result and leaves
    the same world. This is so on every disk in the legacy layout, and
    in the split layout on every disk but the one whose ID index
    [new Set] rejects: there the call is rejected before the map is
    assigned, and the field keeps what it had. *)
Theorem initialise_overwrites_map m (ws : Split.World) (wl : Legacy.World) :
  match stored parse_ids (Split.disk ws)
          (Split.pathToVideosProcessedStorage (Split.this ws)) with
  | Some NotIterable =>
      Split.initialise (Split.set_map m ws) =
      (Thrown TypeError, Split.set_map m ws)
  | _ => Split.initialise (Split.set_map m ws) = Split.initialise ws
  end ∧
  Legacy.initialise (Legacy.set_map m wl) = Legacy.initialise wl.
Proof.
  split.
  - apply SplitCoverage.initialise_forgets_map.
  - apply LegacyCoverage.legacy_initialise_forgets_map.
Qed.

End BothLayoutsCoverage.

(** ** The model at work on the sample library and disks *)

Module SampleRuns.
Import Sample.

Lemma number_of_digits p : number_of (digits p) = Some p.
Proof. induction p as [p IH | p IH |]; cbn; by rewrite ?IH. Qed.

Lemma read_write {A} `{Countable A} (a : A) : read (write a) = Some a.
Proof. unfold read, write. by rewrite number_of_digits, decode_encode. Qed.

(** [write] gives binary digits only, and so neither of the foreign
    documents. *)
Lemma number_of_foreign s : foreign s = true -> number_of s = None.
Proof.
  unfold foreign. intros [Hs | Hs]%orb_prop; apply String.eqb_eq in Hs;
    by subst s.
Qed.

Lemma write_not_foreign {A} `{Countable A} (a : A) : foreign (write a) = false.
Proof.
  destruct (foreign (write a)) eqn:Hforeign; [| done].
  apply number_of_foreign in Hforeign. unfold write in Hforeign.
  by rewrite number_of_digits in Hforeign.
Qed.

Lemma sample_ids_round_trip ids :
  parse_ids (stringify_ids ids) = Some (IdArray ids).
Proof. cbn. by rewrite write_not_foreign, read_write. Qed.


Lemma sample_storage_ready d :
  isDirectory d ["data"] = true ->
  isDirectory d mapPath = false ->
  isDirectory d idsPath = false ->
  isDirectory d commentsPath = false ->
  Split.storageReady (splitWorld d).
Proof.
  intros Hdata Hmap Hids Hcomments. unfold Split.storageReady, writable. cbn.
  rewrite Hdata, Hmap, Hids, Hcomments. by repeat split.
Qed.

(** The example of the specification: the map of two lines for chains
    of length two. *)
Example sample_dictionary :
  map_to_list (createDictionaryFromInput ("a b c" +:+ newline +:+ "b c d") 2)
  ≡ₚ [("<START> <START>", ["a"; "b"]); ("<START> a", ["b"]);
      ("<START> b", ["c"]); ("a b", ["c"]); ("b c", ["<END>"; "d"]);
      ("c d", ["<END>"])].
Proof. vm_compute map_to_list. by apply (bool_decide_unpack _). Qed.

Lemma ready_on_emptyDisk : Split.storageReady (splitWorld emptyDisk).
Proof. by apply sample_storage_ready. Defined.


(** C1 at work: two videos with two comments each. *)
Lemma quota_ceiling_respected_witness :
  respectsLimit (youtube ["a"; "b"]) "key" Split.MAX_COMMENTS_PER_VIDEO ∧
  let w := splitWorld emptyDisk in
  let w' := snd (Split.updateMapFromYoutube (youtube ["a"; "b"]) w) in
  Split.fetches w' = (Split.fetches w ++ Split.fetchedDuring w w')%list ∧
  commentsIn (Split.fetchedDuring w w') <=
    (Split.MAX_QUOTA_PER_DAY / Split.QUOTA_COST_PER_FETCH)
    * Split.COMMENTS_PER_BATCH + Split.MAX_COMMENTS_PER_VIDEO.
Proof.
  assert (respectsLimit (youtube ["a"; "b"]) "key"
            Split.MAX_COMMENTS_PER_VIDEO) as Hlimit.
  { intros video comments [= <-]. by vm_compute. }
  split; [exact Hlimit |].
  exact (SplitFacts.quota_ceiling_respected (youtube ["a"; "b"])
           (splitWorld emptyDisk) Hlimit).
Defined.

(** C2 at work: a cycle, a restart, and a cycle that meets the same
    videos again and a new one. *)
Lemma no_video_fetched_twice_witness :
  let events := [Split.Cycle (youtube ["a"; "b"]); Split.Restart;
                 Split.Cycle (youtube ["a"; "b"; "c"])] in
  (forall ids, parse_ids (stringify_ids ids) = Some (IdArray ids)) ∧
  Split.storageReady (splitWorld emptyDisk) ∧
  forallb (Split.smoothEvent "key") events = true ∧
  let w := Split.world
             (Split.run events
                (Split.boot "key" mapPath idsPath commentsPath emptyDisk [])) in
  NoDup (videoId <$> Split.fetches w) ∧
  forall video, video ∈ videoId <$> Split.fetches w ->
    video ∈ Split.harvestedYoutubeIDs (Split.this w) ∧
    video ∈ Split.storedIds w.
Proof.
  cbn zeta.
  assert (forallb (Split.smoothEvent "key")
            [Split.Cycle (youtube ["a"; "b"]); Split.Restart;
             Split.Cycle (youtube ["a"; "b"; "c"])] = true) as Hsmooth
    by (by vm_compute).
  split; [exact sample_ids_round_trip |].
  split; [exact ready_on_emptyDisk |].
  split; [exact Hsmooth |].
  exact (SplitFacts.no_video_fetched_twice sample_ids_round_trip
           "key" mapPath idsPath commentsPath emptyDisk _
           ready_on_emptyDisk Hsmooth).
Defined.

(** C2 as stated fails, in two ways. A trending list that names a video
    twice has it fetched twice within one cycle; and after a cycle that
    a rejected fetch has cut short, a restart finds no index on disk
    and the next cycle fetches the same video again. *)
Lemma video_fetched_twice :
  let start := Split.boot "key" mapPath idsPath commentsPath emptyDisk [] in
  let repeated :=
    Split.world (Split.run [Split.Cycle (youtube ["a"; "a"])] start) in
  let restarted :=
    Split.world
      (Split.run [Split.Cycle (youtubeFailingOn "b" ["a"; "b"]); Split.Restart;
                  Split.Cycle (youtube ["a"; "b"])] start) in
  answered (Split.fetches repeated) = [("a", true); ("a", true)] ∧
  ¬ NoDup (videoId <$> Split.fetches repeated) ∧
  answered (Split.fetches restarted) =
    [("a", true); ("b", false); ("a", true); ("b", true)] ∧
  ¬ NoDup (videoId <$> Split.fetches restarted).
Proof.
  cbn zeta. split; [by vm_compute |]. split.
  - vm_compute fmap. intros Hnodup. apply NoDup_cons in Hnodup as [Hnotin _].
    apply Hnotin. by left.
  - split; [by vm_compute |].
    vm_compute fmap. intros Hnodup. apply NoDup_cons in Hnodup as [Hnotin _].
    apply Hnotin. right. by left.
Qed.

(** C4 at work: a cycle over two videos in each layout. *)
Lemma cycle_persists_when_it_returns_witness :
  let yt := youtube ["a"; "b"] in
  let ws := splitWorld emptyDisk in
  let wl := legacyWorld mapPath emptyDisk in
  Split.storageReady ws ∧
  writable (Legacy.disk wl) (Legacy.pathToFile (Legacy.this wl)) = true ∧
  let rs := Split.updateMapFromYoutube yt ws in
  let rl := Legacy.updateMapFromYoutube yt wl in
  match fetchTrendingVideos yt (Split.apiKey (Split.this ws)) with
  | Returned videos =>
      match fst (Split.harvest yt
                   (Split.trendingBatch
                      (Split.harvestedYoutubeIDs (Split.this ws)) videos)
                   0 ws) with
      | Returned _ =>
          fst rs = Returned tt ∧
          files (Split.disk (snd rs)) !! Split.pathToMapStorage (Split.this (snd rs))
            = Some (stringify_map (Split.map (Split.this (snd rs)))) ∧
          files (Split.disk (snd rs))
            !! Split.pathToVideosProcessedStorage (Split.this (snd rs))
            = Some (stringify_ids
                      (elements (Split.harvestedYoutubeIDs (Split.this (snd rs)))))
      | Thrown e =>
          fst rs = Thrown e ∧
          forall p, p ≠ Split.pathToCommentStorage (Split.this ws) ->
            files (Split.disk (snd rs)) !! p = files (Split.disk ws) !! p
      end
  | Thrown e => rs = (Thrown e, ws)
  end ∧
  match fetchTrendingVideos yt (Legacy.apiKey (Legacy.this wl)) with
  | Returned videos =>
      match fst (Legacy.harvest yt
                   (Legacy.trendingBatch
                      (Legacy.harvestedYoutubeIDs (Legacy.this wl)) videos)
                   0 wl) with
      | Returned _ =>
          fst rl = Returned tt ∧
          files (Legacy.disk (snd rl)) !! Legacy.pathToFile (Legacy.this (snd rl))
            = Some (stringify_structure
                      (Legacy.map (Legacy.this (snd rl)),
                       elements (Legacy.harvestedYoutubeIDs
                                   (Legacy.this (snd rl)))))
      | Thrown e =>
          fst rl = Thrown e ∧ Legacy.disk (snd rl) = Legacy.disk wl
      end
  | Thrown e => rl = (Thrown e, wl)
  end.
Proof.
  cbn zeta.
  assert (writable (Legacy.disk (legacyWorld mapPath emptyDisk))
            (Legacy.pathToFile (Legacy.this (legacyWorld mapPath emptyDisk)))
          = true) as Hwritable by (by vm_compute).
  split; [exact ready_on_emptyDisk |].
  split; [exact Hwritable |].
  exact (cycle_persists_when_it_returns (youtube ["a"; "b"])
           (splitWorld emptyDisk) (legacyWorld mapPath emptyDisk)
           ready_on_emptyDisk Hwritable).
Defined.

(** C4 as stated fails: when the fetch for the second video is
    rejected, the call is rejected; the first video is harvested in
    memory and its comments are in the log, but neither the map nor the
    ID index has been written. The legacy layout does the same. *)
Lemma rejected_fetch_skips_the_save :
  let yt := youtubeFailingOn "b" ["a"; "b"] in
  let rs := Split.updateMapFromYoutube yt (splitWorld emptyDisk) in
  let rl := Legacy.updateMapFromYoutube yt (legacyWorld mapPath emptyDisk) in
  fst rs = Thrown RequestError ∧
  elements (Split.harvestedYoutubeIDs (Split.this (snd rs))) = ["a"] ∧
  files (Split.disk (snd rs)) !! mapPath = None ∧
  files (Split.disk (snd rs)) !! idsPath = None ∧
  fst rl = Thrown RequestError ∧
  elements (Legacy.harvestedYoutubeIDs (Legacy.this (snd rl))) = ["a"] ∧
  files (Legacy.disk (snd rl)) !! mapPath = None.
Proof. cbn zeta. repeat split; by vm_compute. Qed.



(** C5 as stated fails on a disk whose ID index holds a number:
    [initialise] is rejected with the [TypeError] of [new Set], and the
    map has not been assigned. *)
Lemma misshapen_index_rejects_initialise :
  let w := splitWorld misshapenDisk in
  readFile (Split.disk w)
    (Split.pathToVideosProcessedStorage (Split.this w)) = Returned "5" ∧
  parse_ids "5" = Some NotIterable ∧
  Split.initialise w = (Thrown TypeError, w) ∧
  Split.boot "key" mapPath idsPath commentsPath misshapenDisk [] =
    Split.Halted w.
Proof. cbn zeta. repeat split; by vm_compute. Qed.

(** On the disk with the empty [data] folder, start-up leaves the
    object as the constructor made it, with the empty map assigned:
    the constructed object of the runs below is that of a process that
    has started there. *)
Example started_on_emptyDisk :
  Split.boot "key" mapPath idsPath commentsPath emptyDisk [] =
    Split.Running (splitWorld emptyDisk) ∧
  Legacy.initialise (legacyWorld mapPath emptyDisk) =
    (Returned tt, legacyWorld mapPath emptyDisk).
Proof. split; by vm_compute. Qed.

(** C10 at work: the loop is entered with a running total far above
    the ceiling and still takes the first video. *)
Lemma first_video_always_harvested_witness :
  let yt := youtube ["a"; "b"] in
  let w := splitWorld emptyDisk in
  let comments := ["a b c"; "b c d"] in
  fetchTrendingVideos yt (Split.apiKey (Split.this w)) = Returned ["a"; "b"] ∧
  Split.trendingBatch (Split.harvestedYoutubeIDs (Split.this w)) ["a"; "b"]
    = ["a"; "b"] ∧
  let w1 := snd (Split.updateMapFromYoutube yt w) in
  let w2 := snd (Split.harvest yt ["a"; "b"] 300000 w) in
  Split.harvestedFirst Split.CHAIN_LENGTH "a" comments
    (Split.fetchedDuring w w1)
    (Split.harvestedYoutubeIDs (Split.this w1)) (Split.map (Split.this w1)) ∧
  Split.harvestedFirst Split.CHAIN_LENGTH "a" comments
    (Split.fetchedDuring w w2)
    (Split.harvestedYoutubeIDs (Split.this w2)) (Split.map (Split.this w2)).
Proof.
  cbn zeta.
  assert (Split.trendingBatch
            (Split.harvestedYoutubeIDs (Split.this (splitWorld emptyDisk)))
            ["a"; "b"] = ["a"; "b"]) as Hbatch by (by vm_compute).
  split; [reflexivity |]. split; [exact Hbatch |].
  exact (SplitFacts.first_video_always_harvested (youtube ["a"; "b"])
           (splitWorld emptyDisk) ["a"; "b"] "a" ["b"]
           300000 eq_refl Hbatch).
Defined.

(** C10 as stated fails when the first comment fetch is rejected: the
    filtered list is not empty, the first video is asked for, and the
    cycle is rejected there with no video marked as harvested and no
    key in the map. *)
Lemma rejected_first_fetch_harvests_nothing :
  let yt := youtubeFailingOn "a" ["a"; "b"] in
  let w := Split.world
             (Split.boot "key" mapPath idsPath commentsPath emptyDisk []) in
  let r := Split.updateMapFromYoutube yt w in
  fetchTrendingVideos yt (Split.apiKey (Split.this w)) = Returned ["a"; "b"] ∧
  Split.trendingBatch (Split.harvestedYoutubeIDs (Split.this w)) ["a"; "b"]
    = ["a"; "b"] ∧
  fst r = Thrown RequestError ∧
  answered (Split.fetches (snd r)) = [("a", false)] ∧
  elements (Split.harvestedYoutubeIDs (Split.this (snd r))) = [] ∧
  getKeyCount (Split.map (Split.this (snd r))) = 0.
Proof. cbn zeta. repeat split; by vm_compute. Qed.

(** Above the ceiling the loop stops after that one video. *)
Example loop_above_ceiling_takes_one :
  answered (Split.fetches
              (snd (Split.harvest (youtube ["a"; "b"]) ["a"; "b"] 300000
                      (splitWorld emptyDisk))))
  = [("a", true)].
Proof. by vm_compute. Qed.

(** One missing folder is created by the first write. *)
Example first_write_creates_data_folder :
  let w := snd (Split.updateMapFromYoutube (youtube ["a"])
                  (splitWorld bareDisk)) in
  isDirectory (Split.disk w) ["data"] = true ∧
  isFile (Split.disk w) mapPath = true ∧
  isFile (Split.disk w) idsPath = true ∧
  isFile (Split.disk w) commentsPath = true.
Proof. cbn zeta. repeat split; by vm_compute. Qed.

(** C9 on storage two folders deep, on a disk without folders: every
    write throws [ENOENT] at [mkdirSync] and leaves the disk as it was;
    a whole cycle returns and has stored nothing, not a folder and not
    a file. *)
Theorem nested_storage_folder_is_not_created :
  let w := nestedSplitWorld bareDisk in
  let wl := legacyWorld nestedMapPath bareDisk in
  Split.saveJSONToFile stringify_map (Split.map (Split.this w))
    nestedMapPath w = (Thrown ENOENT, w) ∧
  Split.saveJSONToFile stringify_ids
    (elements (Split.harvestedYoutubeIDs (Split.this w)))
    nestedIdsPath w = (Thrown ENOENT, w) ∧
  Split.saveCommentsToStorage ["first"] w = (Thrown ENOENT, w) ∧
  Legacy.saveMapToStorage wl = (Thrown ENOENT, wl) ∧
  let after := Split.updateMapFromYoutube (youtube ["a"]) w in
  fst after = Returned tt ∧
  Split.disk (snd after) = bareDisk ∧
  Split.disk (snd (Split.initialise (nestedSplitWorld (Split.disk (snd after)))))
    = bareDisk.
Proof.
  cbn zeta.
  split; [by apply SplitFacts.saveJSON_nested_folder_fails |].
  split; [by apply SplitFacts.saveJSON_nested_folder_fails |].
  split; [by apply SplitFacts.saveComments_nested_folder_fails |].
  split; [by apply LegacyFacts.saveMap_nested_folder_fails |].
  repeat split; by vm_compute.
Qed.

End SampleRuns.

(** ** The further properties at work *)

Module CoverageRuns.
Import Sample.

Lemma sample_map_round_trip m : parse_map (stringify_map m) = Some m.
Proof. apply SampleRuns.read_write. Qed.

Lemma sample_structure_round_trip data :
  parse_structure (stringify_structure data) =
  Some (Some (fst data), IdArray (snd data)).
Proof.
  cbn. by rewrite SampleRuns.write_not_foreign, SampleRuns.read_write.
Qed.

(** X2 at work: two videos, far from the quota. *)
Lemma loop_stops_at_quota_only_witness :
  let yt := youtube ["a"; "b"] in
  let w := splitWorld emptyDisk in
  fetchTrendingVideos yt (Split.apiKey (Split.this w)) = Returned ["a"; "b"] ∧
  forallb (fun video =>
             returned (fetchAllCommentsForVideo yt video
                         (Split.apiKey (Split.this w))
                         Split.MAX_COMMENTS_PER_VIDEO))
          (Split.trendingBatch (Split.harvestedYoutubeIDs (Split.this w))
             ["a"; "b"]) = true ∧
  let new := Split.fetchedDuring w (snd (Split.updateMapFromYoutube yt w)) in
  fst (Split.updateMapFromYoutube yt w) = Returned tt ∧
  (videoId <$> new) `prefix_of`
    Split.trendingBatch (Split.harvestedYoutubeIDs (Split.this w)) ["a"; "b"] ∧
  (videoId <$> new =
     Split.trendingBatch (Split.harvestedYoutubeIDs (Split.this w)) ["a"; "b"] ∨
   Split.MAX_COMMENTS_PER_DAY < commentsIn new + Split.MAX_COMMENTS_PER_VIDEO).
Proof.
  cbn zeta.
  assert (forallb (fun video =>
             returned (fetchAllCommentsForVideo (youtube ["a"; "b"]) video
                         (Split.apiKey (Split.this (splitWorld emptyDisk)))
                         Split.MAX_COMMENTS_PER_VIDEO))
          (Split.trendingBatch
             (Split.harvestedYoutubeIDs (Split.this (splitWorld emptyDisk)))
             ["a"; "b"]) = true) as Hok by (by vm_compute).
  split; [reflexivity |]. split; [exact Hok |].
  exact (SplitCoverage.loop_stops_at_quota_only (youtube ["a"; "b"])
           (splitWorld emptyDisk) ["a"; "b"] eq_refl Hok).
Defined.

(** X3 at work: a file of somebody else next to the storage. *)
Lemma only_storage_files_are_written_witness :
  let yt := youtube ["a"; "b"] in
  let w := splitWorld emptyDisk in
  let q := ["data"; "notes.txt"] in
  q ≠ Split.pathToMapStorage (Split.this w) ∧
  q ≠ Split.pathToVideosProcessedStorage (Split.this w) ∧
  (files (Split.disk (snd (Split.initialise w))) !! q
     = files (Split.disk w) !! q ∧
   (q = Split.pathToCommentStorage (Split.this w) ∨
    files (Split.disk (snd (Split.updateMapFromYoutube yt w))) !! q
      = files (Split.disk w) !! q)).
Proof.
  cbn zeta.
  assert (["data"; "notes.txt"]
          ≠ Split.pathToMapStorage (Split.this (splitWorld emptyDisk)))
    as Hmap by discriminate.
  assert (["data"; "notes.txt"]
          ≠ Split.pathToVideosProcessedStorage
              (Split.this (splitWorld emptyDisk)))
    as Hids by discriminate.
  split; [exact Hmap |]. split; [exact Hids |].
  exact (SplitCoverage.only_storage_files_are_written (youtube ["a"; "b"])
           (splitWorld emptyDisk) ["data"; "notes.txt"] Hmap Hids).
Defined.

Lemma cycle_returns_on_emptyDisk :
  fst (Split.updateMapFromYoutube (youtube ["a"; "b"]) (splitWorld emptyDisk))
  = Returned tt.
Proof. by vm_compute. Defined.

(** X4 at work *)
Lemma restart_after_cycle_restores_object_witness :
  let yt := youtube ["a"; "b"] in
  let w := splitWorld emptyDisk in
  (forall ids, parse_ids (stringify_ids ids) = Some (IdArray ids)) ∧
  (forall m, parse_map (stringify_map m) = Some m) ∧
  Split.storageReady w ∧
  fst (Split.updateMapFromYoutube yt w) = Returned tt ∧
  Split.step (Split.step (Split.Running w) (Split.Cycle yt)) Split.Restart
    = Split.step (Split.Running w) (Split.Cycle yt).
Proof.
  cbn zeta.
  split; [exact SampleRuns.sample_ids_round_trip |].
  split; [exact sample_map_round_trip |].
  split; [exact SampleRuns.ready_on_emptyDisk |].
  split; [exact cycle_returns_on_emptyDisk |].
  exact (SplitCoverage.restart_after_cycle_restores_object
           SampleRuns.sample_ids_round_trip sample_map_round_trip
           (youtube ["a"; "b"]) (splitWorld emptyDisk)
           SampleRuns.ready_on_emptyDisk cycle_returns_on_emptyDisk).
Defined.

Lemma three_videos_once : NoDup ["a"; "b"; "c"].
Proof. by apply (bool_decide_unpack _). Defined.

(** X6 at work: the fetch of the second of three videos is rejected;
    the next batch starts with it. *)
Lemma next_batch_resumes_witness :
  let yt := youtubeFailingOn "b" ["a"; "b"; "c"] in
  let w := splitWorld emptyDisk in
  let videos := ["a"; "b"; "c"] in
  fetchTrendingVideos yt (Split.apiKey (Split.this w)) = Returned videos ∧
  NoDup videos ∧
  let w' := snd (Split.updateMapFromYoutube yt w) in
  let candidates :=
    filter (fun videoID => videoID ∉ Split.harvestedYoutubeIDs (Split.this w))
      videos in
  answeredVideos (Split.fetchedDuring w w') `prefix_of` candidates ∧
  Split.trendingBatch (Split.harvestedYoutubeIDs (Split.this w')) videos =
  slice0 Split.MAX_VIDEOS_PER_UPDATE
    (drop (length (answeredVideos (Split.fetchedDuring w w'))) candidates).
Proof.
  cbn zeta. split; [reflexivity |]. split; [exact three_videos_once |].
  exact (SplitCoverage.next_batch_resumes
           (youtubeFailingOn "b" ["a"; "b"; "c"]) (splitWorld emptyDisk)
           ["a"; "b"; "c"] eq_refl three_videos_once).
Defined.

Example next_batch_after_rejection :
  Split.trendingBatch
    (Split.harvestedYoutubeIDs
       (Split.this (snd (Split.updateMapFromYoutube
                           (youtubeFailingOn "b" ["a"; "b"; "c"])
                           (splitWorld emptyDisk)))))
    ["a"; "b"; "c"]
  = ["b"; "c"].
Proof. by vm_compute. Qed.

(** X8 at work: the [data] folder is not there yet. *)
Lemma first_append_creates_folder_witness :
  let w := splitWorld bareDisk in
  let p := Split.pathToCommentStorage (Split.this w) in
  existsSync (Split.disk w) (dirname p) = false ∧
  isDirectory (Split.disk w) (dirname (dirname p)) = true ∧
  isDirectory (Split.disk w) p = false ∧
  Split.saveCommentsToStorage ["first"; "second"] w =
  (Returned tt,
   Split.set_disk
     {| dirs := {[dirname p]} ∪ dirs (Split.disk w);
        files := <[p := default "" (files (Split.disk w) !! p)
                        +:+ join newline ["first"; "second"]]>
                   (files (Split.disk w)) |} w).
Proof.
  cbn zeta.
  assert (existsSync (Split.disk (splitWorld bareDisk))
            (dirname (Split.pathToCommentStorage
                        (Split.this (splitWorld bareDisk)))) = false)
    as Hmissing by (by vm_compute).
  assert (isDirectory (Split.disk (splitWorld bareDisk))
            (dirname (dirname (Split.pathToCommentStorage
                                 (Split.this (splitWorld bareDisk))))) = true)
    as Hparent by (by vm_compute).
  assert (isDirectory (Split.disk (splitWorld bareDisk))
            (Split.pathToCommentStorage (Split.this (splitWorld bareDisk)))
          = false) as Hfile by (by vm_compute).
  split; [exact Hmissing |]. split; [exact Hparent |]. split; [exact Hfile |].
  exact (SplitCoverage.first_append_creates_folder ["first"; "second"]
           (splitWorld bareDisk) Hmissing Hparent Hfile).
Defined.

(** X13 at work: the same two videos trend again. *)
Lemma cycle_with_nothing_new_witness :
  let yt := youtube ["a"; "b"] in
  let w := harvestedWorld in
  fetchTrendingVideos yt (Split.apiKey (Split.this w)) = Returned ["a"; "b"] ∧
  forallb (fun video =>
             bool_decide (video ∈ Split.harvestedYoutubeIDs (Split.this w)))
          ["a"; "b"] = true ∧
  let r := Split.updateMapFromYoutube yt w in
  fst r = Returned tt ∧
  Split.fetches (snd r) = Split.fetches w ∧
  Split.this (snd r) = Split.this w ∧
  snd r = snd (Split.saveDataToStorage w).
Proof.
  cbn zeta.
  assert (forallb (fun video =>
             bool_decide (video ∈ Split.harvestedYoutubeIDs
                                    (Split.this harvestedWorld)))
            ["a"; "b"] = true) as Hall by (by vm_compute).
  split; [reflexivity |]. split; [exact Hall |].
  exact (SplitCoverage.cycle_with_nothing_new (youtube ["a"; "b"])
           harvestedWorld ["a"; "b"] eq_refl Hall).
Defined.

Lemma sample_respects_limit :
  respectsLimit (youtube ["a"; "b"]) "key" Legacy.MAX_COMMENTS_PER_VIDEO.
Proof. intros video comments [= <-]. by vm_compute. Defined.

(** X9 at work *)
Lemma legacy_cycle_fetches_whole_batch_witness :
  let yt := youtube ["a"; "b"] in
  let w := legacyWorld mapPath emptyDisk in
  fetchTrendingVideos yt (Legacy.apiKey (Legacy.this w))
    = Returned ["a"; "b"] ∧
  respectsLimit yt (Legacy.apiKey (Legacy.this w))
    Legacy.MAX_COMMENTS_PER_VIDEO ∧
  forallb (fun video =>
             returned (fetchAllCommentsForVideo yt video
                         (Legacy.apiKey (Legacy.this w))
                         Legacy.MAX_COMMENTS_PER_VIDEO))
          (Legacy.trendingBatch (Legacy.harvestedYoutubeIDs (Legacy.this w))
             ["a"; "b"]) = true ∧
  let new := Legacy.fetchedDuring w (snd (Legacy.updateMapFromYoutube yt w)) in
  fst (Legacy.updateMapFromYoutube yt w) = Returned tt ∧
  videoId <$> new =
    Legacy.trendingBatch (Legacy.harvestedYoutubeIDs (Legacy.this w))
      ["a"; "b"] ∧
  commentsIn new <=
    Legacy.MAX_VIDEOS_PER_UPDATE * Legacy.MAX_COMMENTS_PER_VIDEO.
Proof.
  cbn zeta.
  assert (forallb (fun video =>
             returned (fetchAllCommentsForVideo (youtube ["a"; "b"]) video
                         (Legacy.apiKey
                            (Legacy.this (legacyWorld mapPath emptyDisk)))
                         Legacy.MAX_COMMENTS_PER_VIDEO))
          (Legacy.trendingBatch
             (Legacy.harvestedYoutubeIDs
                (Legacy.this (legacyWorld mapPath emptyDisk)))
             ["a"; "b"]) = true) as Hok by (by vm_compute).
  split; [reflexivity |]. split; [exact sample_respects_limit |].
  split; [exact Hok |].
  exact (LegacyCoverage.legacy_cycle_fetches_whole_batch (youtube ["a"; "b"])
           (legacyWorld mapPath emptyDisk) ["a"; "b"] eq_refl
           sample_respects_limit Hok).
Defined.

(** X10 at work *)
Lemma legacy_restart_restores_object_witness :
  let yt := youtube ["a"; "b"] in
  let w := legacyWorld mapPath emptyDisk in
  (forall data,
     parse_structure (stringify_structure data) =
     Some (Some (fst data), IdArray (snd data))) ∧
  writable (Legacy.disk w) (Legacy.pathToFile (Legacy.this w)) = true ∧
  fst (Legacy.updateMapFromYoutube yt w) = Returned tt ∧
  Legacy.this (Legacy.restart (snd (Legacy.updateMapFromYoutube yt w)))
    = Legacy.this (snd (Legacy.updateMapFromYoutube yt w)).
Proof.
  cbn zeta.
  assert (writable (Legacy.disk (legacyWorld mapPath emptyDisk))
            (Legacy.pathToFile (Legacy.this (legacyWorld mapPath emptyDisk)))
          = true) as Hwritable by (by vm_compute).
  assert (fst (Legacy.updateMapFromYoutube (youtube ["a"; "b"])
                 (legacyWorld mapPath emptyDisk)) = Returned tt)
    as Hreturned by (by vm_compute).
  split; [exact sample_structure_round_trip |].
  split; [exact Hwritable |]. split; [exact Hreturned |].
  exact (LegacyCoverage.legacy_restart_restores_object
           sample_structure_round_trip (youtube ["a"; "b"])
           (legacyWorld mapPath emptyDisk) Hwritable Hreturned).
Defined.

(** X11 at work: the file holds the object without members. The
    harvested set is replaced by the empty one before the log line
    throws, and the handler assigns the fresh map. *)
Example legacy_document_without_map :
  let d := {| dirs := {[ ["data"] ]}; files := {[ mapPath := "{}" ]} |} in
  let w := Legacy.set_harvestedYoutubeIDs {[ "a" ]} (legacyWorld mapPath d) in
  let w' := snd (Legacy.initialise w) in
  fst (Legacy.initialise w) = Returned tt ∧
  elements (Legacy.harvestedYoutubeIDs (Legacy.this w)) = ["a"] ∧
  elements (Legacy.harvestedYoutubeIDs (Legacy.this w')) = [] ∧
  getKeyCount (Legacy.map (Legacy.this w')) = 0.
Proof. cbn zeta. repeat split; by vm_compute. Qed.

(** X12 at work: on the disk whose ID index holds a number the split
    [initialise] leaves the map it finds in the field. *)
Example misshapen_index_keeps_the_map :
  let m : IMarkovMap := {[ "a b c" := ["d"] ]} in
  let w := Split.set_map m (splitWorld misshapenDisk) in
  fst (Split.initialise w) = Thrown TypeError ∧
  map_to_list (Split.map (Split.this (snd (Split.initialise w)))) =
    [("a b c", ["d"])].
Proof. cbn zeta. split; by vm_compute. Qed.

(** X14 at work *)
Lemma legacy_only_the_file_is_written_witness :
  let yt := youtubeFailingOn "b" ["a"; "b"] in
  let w := legacyWorld mapPath loggedDisk in
  commentsPath ≠ Legacy.pathToFile (Legacy.this w) ∧
  (files (Legacy.disk (snd (Legacy.updateMapFromYoutube yt w)))
     !! commentsPath = files (Legacy.disk w) !! commentsPath ∧
   (returned (fst (Legacy.updateMapFromYoutube yt w)) = true ∨
    Legacy.disk (snd (Legacy.updateMapFromYoutube yt w)) = Legacy.disk w)).
Proof.
  cbn zeta.
  assert (commentsPath
          ≠ Legacy.pathToFile (Legacy.this (legacyWorld mapPath loggedDisk)))
    as Hq by discriminate.
  split; [exact Hq |].
  exact (LegacyCoverage.legacy_only_the_file_is_written
           (youtubeFailingOn "b" ["a"; "b"]) (legacyWorld mapPath loggedDisk)
           commentsPath Hq).
Defined.

End CoverageRuns.
